(** * blocker: the EBS volume driver (ebs_driver.go)

    A shallow embedding of the volume driver of [src/ebs_driver.go].
    The driver talks to three collaborators it does not own: the EC2
    block-storage API, the local filesystem and a handful of OS commands
    (mkfs, mount, umount, mountpoint).  They are kept abstract here: an
    environment [Env W] gives, for a world of type [W], the answer of
    each call and the world after it.  Driver functions live in a small
    state-and-trace monad [M]: running one on a world yields its Go
    return value, the world it leaves and the list of calls it issued,
    in order.  Theorems quantify over every environment; the concrete
    environment [Sim] at the end of the definitions is used to run the
    driver on explicit inputs.

    The [log] calls are left out: they print diagnostics and nothing the
    driver reads back.  Pointers of the SDK's structures are taken to be
    non-nil, as the driver takes them. *)

From Stdlib Require Import ZArith Ascii String List Bool Lia.
From stdpp Require Import base option list strings gmap pretty.

Local Open Scope string_scope.
Local Open Scope list_scope.
Local Open Scope Z_scope.

(** ** Go values *)

(** [error] values met in the driver.  [errorString] is what [errors.New]
    and [fmt.Errorf] build; [awsError] is an [awserr.Error] with its code;
    [pathError] is what the [os] calls return, with the answer of
    [os.IsNotExist]; [exitError] is a failed [exec.Command]; [numError] is
    [strconv.NumError]. *)
Inductive numErrKind := ErrSyntax | ErrRange.

Inductive error :=
| errorString (s : string)
| awsError (code message : string)
| pathError (notExist : bool) (msg : string)
| exitError (msg : string)
| numError (fn num : string) (k : numErrKind).

Definition numErrKind_msg (k : numErrKind) : string :=
  match k with
  | ErrSyntax => "invalid syntax"
  | ErrRange => "value out of range"
  end.

(** [err.Error()], which is what [%v] prints for an error.  For a
    [numError] the text is given without the quoting Go applies to the
    input; the driver never prints one, line 68 drops it. *)
Definition Error (e : error) : string :=
  match e with
  | errorString s => s
  | awsError code message => code +:+ ": " +:+ message
  | pathError _ msg => msg
  | exitError msg => msg
  | numError fn num k =>
      "strconv." +:+ fn +:+ ": parsing " +:+ num +:+ ": " +:+ numErrKind_msg k
  end.

(** [%v] of a possibly nil error. *)
Definition fmt_err (e : option error) : string :=
  match e with
  | Some e => Error e
  | None => "<nil>"
  end.

(** [os.IsNotExist(err)]. *)
Definition IsNotExist (e : option error) : bool :=
  match e with
  | Some (pathError b _) => b
  | _ => false
  end.

(** [awsErr, ok := err.(awserr.Error); ok && awsErr.Code() == code]. *)
Definition isAwsCode (e : error) (code : string) : bool :=
  match e with
  | awsError c _ => String.eqb c code
  | _ => false
  end.

(** ** The EC2 data the driver reads *)

Record Tag := { Key : string; Value : string }.

Record VolumeAttachment := {
  Device : string;
  InstanceId : string;
  AttachState : string
}.

Record Volume := {
  VolumeId : string;
  Tags : list Tag;
  Attachments : list VolumeAttachment;
  State : string
}.

Record Filter := { Name : string; Values : list string }.

Definition VolumeAttachmentStateAttached : string := "attached".
Definition VolumeStateAvailable : string := "available".

(** What [os.Stat] tells the driver about a path. *)
Record FileInfo := { IsDir : bool }.

(** ** Calls issued to the collaborators

    One constructor per call the driver makes that can change the world.
    [ECheck v] is a ghost event: it marks that the poller evaluates its
    condition on the freshly fetched volume [v] (line 278). *)
Inductive event :=
| EDescribeVolumes (filters : list Filter)
| ECreateVolume (az : string) (size : Z)
| ECreateTags (resources : list string) (tags : list Tag)
| EAttachVolume (device instance volumeId : string)
| EDetachVolume (instance volumeId : string)
| EMkdirAll (path : string)
| ERemove (path : string)
| EExec (cmd : string) (args : list string)
| ESleep (seconds : Z)
| ECheck (v : Volume).

Definition is_attach (e : event) : bool :=
  match e with EAttachVolume _ _ _ => true | _ => false end.
Definition is_detach (e : event) : bool :=
  match e with EDetachVolume _ _ => true | _ => false end.
Definition is_sleep (e : event) : bool :=
  match e with ESleep _ => true | _ => false end.
Definition is_check (e : event) : bool :=
  match e with ECheck _ => true | _ => false end.
Definition is_describe (e : event) : bool :=
  match e with EDescribeVolumes _ => true | _ => false end.
Definition is_provider (e : event) : bool :=
  match e with
  | EDescribeVolumes _ | ECreateVolume _ _ | ECreateTags _ _
  | EAttachVolume _ _ _ | EDetachVolume _ _ => true
  | _ => false
  end.

(** The volumes the poll condition was evaluated on, in order. *)
Fixpoint checked (t : list event) : list Volume :=
  match t with
  | [] => []
  | ECheck v :: t' => v :: checked t'
  | _ :: t' => checked t'
  end.

(** ** The environment

    [lstat] and [stat] only observe the world.  Every other call returns
    its answer together with the world after the call, so the provider may
    move a volume through its asynchronous transitions whenever it is
    asked or while the driver sleeps. *)
Record Env (W : Type) := {
  lstat : W -> string -> option error;
  stat : W -> string -> FileInfo + error;
  mkdirAll : W -> string -> option error * W;
  remove : W -> string -> option error * W;
  exec : W -> string -> list string -> (string * option error) * W;
  describeVolumes : W -> list Filter -> (list Volume + error) * W;
  createVolume : W -> string -> Z -> (Volume + error) * W;
  createTags : W -> list string -> list Tag -> option error * W;
  ec2AttachVolume : W -> string -> string -> string -> option error * W;
  ec2DetachVolume : W -> string -> string -> option error * W;
  sleep : W -> Z -> W
}.

Arguments lstat {W}.
Arguments stat {W}.
Arguments mkdirAll {W}.
Arguments remove {W}.
Arguments exec {W}.
Arguments describeVolumes {W}.
Arguments createVolume {W}.
Arguments createTags {W}.
Arguments ec2AttachVolume {W}.
Arguments ec2DetachVolume {W}.
Arguments sleep {W}.

(** ** The monad: world passing with a trace of calls *)

Definition M (W A : Type) : Type := W -> A * W * list event.

Definition ret {W A} (a : A) : M W A := fun w => (a, w, []).

Definition bind {W A B} (m : M W A) (k : A -> M W B) : M W B :=
  fun w =>
    let '(a, w1, t1) := m w in
    let '(b, w2, t2) := k a w1 in
    (b, w2, t1 ++ t2).

(** A call that changes the world: answer, new world, one event. *)
Definition call {W A} (e : event) (f : W -> A * W) : M W A :=
  fun w => let '(a, w') := f w in (a, w', [e]).

(** An observation of the world: no event, no change. *)
Definition observe {W A} (f : W -> A) : M W A := fun w => (f w, w, []).

(** A ghost mark in the trace. *)
Definition mark {W} (e : event) : M W unit := fun w => (tt, w, [e]).

Notation "'let*' x ':=' c1 'in' c2" := (bind c1 (fun x => c2))
  (at level 10, x name, c1 at level 100, c2 at level 200).
Notation "'let*' ' pat ':=' c1 'in' c2" :=
  (bind c1 (fun x => match x with pat => c2 end))
  (at level 10, pat pattern, c1 at level 100, c2 at level 200).

Definition result_of {W A} (r : A * W * list event) : A := fst (fst r).
Definition world_of {W A} (r : A * W * list event) : W := snd (fst r).
Definition trace_of {W A} (r : A * W * list event) : list event := snd r.

(** ** Pure helpers: strings *)

(** [strings.Index(path, "/")], with [None] for Go's -1. *)
Fixpoint index_slash (s : string) : option nat :=
  match s with
  | EmptyString => None
  | String c s' =>
      if Ascii.eqb c "/"%char then Some O
      else match index_slash s' with
           | Some n => Some (S n)
           | None => None
           end
  end.

(** [s[:n]] and [s[n:]] for [n] within the length of [s]. *)
Fixpoint take_str (n : nat) (s : string) : string :=
  match n, s with
  | S n', String c s' => String c (take_str n' s')
  | _, _ => EmptyString
  end.

Fixpoint drop_str (n : nat) (s : string) : string :=
  match n, s with
  | S n', String _ s' => drop_str n' s'
  | _, _ => s
  end.

(** Lines 219-225. *)
Definition parsePath (path : string) : string * string :=
  match index_slash path with
  | None => (path, "")
  | Some sep => (take_str sep path, drop_str sep path)
  end.

(** Whether the byte [c] occurs in [s]. *)
Fixpoint contains_char (c : ascii) (s : string) : bool :=
  match s with
  | EmptyString => false
  | String c' s' => Ascii.eqb c' c || contains_char c s'
  end.

(** ** Pure helpers: strconv.ParseInt(s, 10, 64)

    Go's standard library, written out for base 10 and 64 bits: [uint64]
    values are [Z] reduced modulo 2^64. *)
Definition maxUint64 : Z := 2 ^ 64 - 1.
Definition maxInt64 : Z := 2 ^ 63 - 1.
Definition minInt64 : Z := - 2 ^ 63.

Definition isDigit (c : ascii) : bool :=
  let n := Z.of_N (N_of_ascii c) in (48 <=? n) && (n <=? 57).

Definition digitVal (c : ascii) : Z := Z.of_N (N_of_ascii c) - 48.

(** The digit loop of [ParseUint]: a byte that is not a decimal digit is a
    syntax error with value 0 (letters give a digit value of at least 10,
    which is not below the base); an overflow stops the loop at once with
    the largest value and a range error. *)
Fixpoint ParseUint_loop (s : string) (n : Z) : Z * option numErrKind :=
  match s with
  | EmptyString => (n, None)
  | String c s' =>
      if isDigit c then
        let d := digitVal c in
        if n >=? maxUint64 / 10 + 1 then (maxUint64, Some ErrRange)
        else
          let n := (n * 10) mod 2 ^ 64 in
          let n1 := (n + d) mod 2 ^ 64 in
          if (n1 <? n) || (n1 >? maxUint64) then (maxUint64, Some ErrRange)
          else ParseUint_loop s' n1
      else (0, Some ErrSyntax)
  end.

Definition ParseUint (s : string) : Z * option numErrKind :=
  match s with
  | EmptyString => (0, Some ErrSyntax)
  | _ => ParseUint_loop s 0
  end.

Definition ParseInt (s : string) : Z * option error :=
  match s with
  | EmptyString => (0, Some (numError "ParseInt" s ErrSyntax))
  | String c0 rest =>
      let neg := Ascii.eqb c0 "-"%char in
      let body :=
        if Ascii.eqb c0 "+"%char then rest
        else if Ascii.eqb c0 "-"%char then rest
        else s in
      match ParseUint body with
      | (_, Some ErrSyntax) => (0, Some (numError "ParseInt" s ErrSyntax))
      | (un, _) =>
          let cutoff := 2 ^ 63 in
          if negb neg && (un >=? cutoff) then
            (cutoff - 1, Some (numError "ParseInt" s ErrRange))
          else if neg && (un >? cutoff) then
            (- cutoff, Some (numError "ParseInt" s ErrRange))
          else
            (if neg then - un else un, None)
      end
  end.

(** ** Pure helpers: the device pattern

    [regexp.MustCompile("/dev/(xv|s)d([f-p])").FindStringSubmatch(s)]:
    the leftmost place of [s] where the pattern matches gives the whole
    match and its two groups; no match gives the empty (nil) slice. *)
Definition isSlotLetter (c : ascii) : bool :=
  let n := Z.of_N (N_of_ascii c) in (102 <=? n) && (n <=? 112).

Definition matchDeviceAt (s : string) : list string :=
  if String.prefix "/dev/xvd" s then
    match drop_str 8 s with
    | String c _ =>
        if isSlotLetter c then ["/dev/xvd" +:+ String c ""; "xv"; String c ""]
        else []
    | EmptyString => []
    end
  else if String.prefix "/dev/sd" s then
    match drop_str 7 s with
    | String c _ =>
        if isSlotLetter c then ["/dev/sd" +:+ String c ""; "s"; String c ""]
        else []
    | EmptyString => []
    end
  else [].

Fixpoint FindStringSubmatch (s : string) : list string :=
  match matchDeviceAt s with
  | [] =>
      match s with
      | EmptyString => []
      | String _ s' => FindStringSubmatch s'
      end
  | res => res
  end.

(** [res[i]] on a slice known to be long enough. *)
Definition at_index (res : list string) (i : nat) : string := nth i res "".

(** The newline of the format strings. *)
Definition nl : string := String (ascii_of_nat 10) "".

(** [%v] of an [int]. *)
Definition fmt_int (n : nat) : string := pretty (Z.of_nat n).

(** The candidate device letters of line 369. *)
Definition slots : list ascii := list_ascii_of_string "fghijklmnop".

(** ** The driver *)

Record ebsVolumeDriver := {
  awsInstanceId : string;
  awsRegion : string;
  awsAvailabilityZone : string
}.

Section Driver.

Context {W : Type}.
Variable env : Env W.
Variable d : ebsVolumeDriver.

(** *** The calls, as monadic actions *)

Definition os_Lstat (path : string) : M W (option error) :=
  observe (fun w => lstat env w path).

Definition os_Stat (path : string) : M W (FileInfo + error) :=
  observe (fun w => stat env w path).

Definition os_MkdirAll (path : string) : M W (option error) :=
  call (EMkdirAll path) (fun w => mkdirAll env w path).

Definition os_Remove (path : string) : M W (option error) :=
  call (ERemove path) (fun w => remove env w path).

(** [exec.Command(cmd, args...).CombinedOutput()]; [Run()] is the same
    call with the output dropped. *)
Definition exec_Command (cmd : string) (args : list string)
  : M W (string * option error) :=
  call (EExec cmd args) (fun w => exec env w cmd args).

Definition ec2_DescribeVolumes (filters : list Filter)
  : M W (list Volume + error) :=
  call (EDescribeVolumes filters) (fun w => describeVolumes env w filters).

Definition ec2_CreateVolume (az : string) (size : Z) : M W (Volume + error) :=
  call (ECreateVolume az size) (fun w => createVolume env w az size).

Definition ec2_CreateTags (resources : list string) (tags : list Tag)
  : M W (option error) :=
  call (ECreateTags resources tags) (fun w => createTags env w resources tags).

Definition ec2_AttachVolume (device instance volumeId : string)
  : M W (option error) :=
  call (EAttachVolume device instance volumeId)
       (fun w => ec2AttachVolume env w device instance volumeId).

Definition ec2_DetachVolume (instance volumeId : string) : M W (option error) :=
  call (EDetachVolume instance volumeId)
       (fun w => ec2DetachVolume env w instance volumeId).

Definition time_Sleep (seconds : Z) : M W unit :=
  fun w => (tt, sleep env w seconds, [ESleep seconds]).

(** *** Registry: lines 201-217 *)

Definition getEBSVolume (name : string) : M W (Volume + error) :=
  let* volumes :=
    ec2_DescribeVolumes [ {| Name := "tag:Name"; Values := [name] |} ] in
  match volumes with
  | inr err => ret (inr err)
  | inl [] => ret (inr (errorString "Volume not found"))
  | inl (v :: _) => ret (inl v)
  end.

(** *** Poller: lines 263-291

    The Go loop has no bound of its own: it leaves at [tries == 12].  The
    recursion is on [fuel], and [waitUntilState] gives it the 12 rounds
    the counter allows, so the last branch (line 290) is never reached
    (lemma [waitUntilState_loop_fuel]). *)
Fixpoint waitUntilState_loop (fuel : nat) (tries : Z) (name : string)
  (check : Volume -> option error) : M W (option error) :=
  match fuel with
  | O => ret None
  | S fuel' =>
      let tries := tries + 1 in
      let* volume := getEBSVolume name in
      match volume with
      | inr err => ret (Some err)
      | inl volume =>
          let* _ := mark (ECheck volume) in
          match check volume with
          | None => ret None
          | Some err =>
              if tries =? 12 then ret (Some err)
              else
                let* _ := time_Sleep 5 in
                waitUntilState_loop fuel' tries name check
          end
      end
  end.

Definition waitUntilState (name : string) (check : Volume -> option error)
  : M W (option error) :=
  waitUntilState_loop 12 0 name check.

(** Lines 293-312. *)
Definition checkAttached (volume : Volume) : option error :=
  let attachment :=
    match Attachments volume with
    | [a] => Some a
    | _ => None
    end in
  match attachment with
  | Some a =>
      if String.eqb (AttachState a) VolumeAttachmentStateAttached then None
      else Some (errorString
        ("Volume state transition failed: seeking " +:+
         VolumeAttachmentStateAttached +:+ ", current is " +:+ AttachState a))
  | None =>
      Some (errorString
        ("Volume state transition failed: expected 1 attachment, got " +:+
         fmt_int (length (Attachments volume))))
  end.

Definition waitUntilAttached (name : string) : M W (option error) :=
  waitUntilState name checkAttached.

(** Lines 314-322. *)
Definition checkDettached (volume : Volume) : option error :=
  match Attachments volume with
  | [] => None
  | _ => Some (errorString
                 "Volume state transition failed: still has attachments")
  end.

Definition waitUntilDettached (name : string) : M W (option error) :=
  waitUntilState name checkDettached.

(** Lines 324-333. *)
Definition checkAvailable (volume : Volume) : option error :=
  if String.eqb (State volume) VolumeStateAvailable then None
  else Some (errorString
    ("Volume state transition failed: seeking " +:+ VolumeStateAvailable +:+
     ", current is " +:+ State volume)).

Definition waitUntilAvailable (name : string) : M W (option error) :=
  waitUntilState name checkAvailable.

(** *** Allocator: detach, lines 442-461 *)

Definition detachVolume (name : string) : M W (option error) :=
  let* volume := getEBSVolume name in
  match volume with
  | inr err => ret (Some err)
  | inl volume =>
      let* derr := ec2_DetachVolume (awsInstanceId d) (VolumeId volume) in
      match derr with
      | Some err => ret (Some err)
      | None =>
          let* werr := waitUntilDettached name in
          match werr with
          | Some err => ret (Some err)
          | None => ret None
          end
      end
  end.

(** *** Allocator: attach, lines 335-418 *)

(** Lines 341-356: [Some r] when the function returns [r] there, [None]
    when control falls through to line 358. *)
Definition attachVolume_resolve (name : string) (volume : Volume)
  : M W (option (string * option error)) :=
  match Attachments volume with
  | [a] =>
      if String.eqb (AttachState a) VolumeAttachmentStateAttached &&
         String.eqb (InstanceId a) (awsInstanceId d)
      then
        let res := FindStringSubmatch (Device a) in
        if negb (Nat.eqb (length res) 3) then
          ret (Some ("", Some (errorString
                 ("Unable to find mount device for " +:+ name))))
        else
          let* e1 := os_Lstat ("/dev/sd" +:+ at_index res 2) in
          match e1 with
          | None => ret (Some ("/dev/sd" +:+ at_index res 2, None))
          | Some _ =>
              let* e2 := os_Lstat ("/dev/xvd" +:+ at_index res 2) in
              match e2 with
              | None => ret (Some ("/dev/xvd" +:+ at_index res 2, None))
              | Some _ => ret None
              end
          end
      else ret None
  | _ => ret None
  end.

(** Lines 369-417: the loop over the device letters, [cs] being the
    letters still to try. *)
Fixpoint attachVolume_scan (name : string) (volume : Volume) (cs : list ascii)
  : M W (string * option error) :=
  match cs with
  | [] =>
      ret ("", Some (errorString
             "No devices available for attach: /dev/sd[f-p] taken."))
  | c :: rest =>
      let dev := "/dev/sd" +:+ String c "" in
      let altdev := "/dev/xvd" +:+ String c "" in
      let* e1 := os_Lstat dev in
      match e1 with
      | None => attachVolume_scan name volume rest
      | Some _ =>
      let* e2 := os_Lstat altdev in
      match e2 with
      | None => attachVolume_scan name volume rest
      | Some _ =>
      let* aerr := ec2_AttachVolume dev (awsInstanceId d) (VolumeId volume) in
      match aerr with
      | Some err =>
          if isAwsCode err "InvalidParameterValue"
          then attachVolume_scan name volume rest
          else ret ("", Some err)
      | None =>
      let* werr := waitUntilAttached name in
      match werr with
      | Some err => ret ("", Some err)
      | None =>
          let* l1 := os_Lstat dev in
          if IsNotExist l1 then
            let* l2 := os_Lstat altdev in
            if IsNotExist l2 then
              let* _ := detachVolume name in
              ret ("", Some (errorString
                     ("Device " +:+ dev +:+ " is missing after attach.")))
            else ret (altdev, None)
          else ret (dev, None)
      end end end end
  end.

Definition attachVolume (name : string) : M W (string * option error) :=
  let* volume := getEBSVolume name in
  match volume with
  | inr err => ret ("", Some err)
  | inl volume =>
      let* early := attachVolume_resolve name volume in
      match early with
      | Some r => ret r
      | None =>
          let* werr := waitUntilAvailable name in
          match werr with
          | Some err => ret ("", Some err)
          | None => attachVolume_scan name volume slots
          end
      end
  end.

(** *** Orchestrator *)

(** Lines 60-111.  [options["size"]] is the empty string for a missing
    key; the error of [ParseInt] is dropped (line 68), and so are the
    result of [CreateTags] (line 85) and of both [detachVolume] calls. *)
Definition Create (name : string) (options : gmap string string)
  : M W (option error) :=
  let size := fst (ParseInt (default "" (options !! "size"))) in
  let* volume := ec2_CreateVolume (awsAvailabilityZone d) size in
  match volume with
  | inr err => ret (Some err)
  | inl volume =>
      let volumeId := VolumeId volume in
      let* _ := ec2_CreateTags [volumeId]
                  [ {| Key := "Name"; Value := name |} ] in
      let* '(device, err) := attachVolume name in
      match err with
      | Some err => ret (Some err)
      | None =>
          let* '(out, err) := exec_Command "mkfs" ["-t"; "ext4"; device] in
          match err with
          | Some err =>
              let* _ := detachVolume name in
              ret (Some (errorString
                     ("Formatting device " +:+ device +:+ " failed: " +:+
                      Error err +:+ nl +:+ out)))
          | None =>
              let* _ := detachVolume name in
              ret None
          end
      end
  end.

(** Lines 227-261. *)
Definition doMount (name : string) : M W (string * option error) :=
  let mnt := "/mnt/blocker/" +:+ name in
  let* merr := os_MkdirAll mnt in
  match merr with
  | Some err => ret ("", Some err)
  | None =>
      let* st := os_Stat mnt in
      match st with
      | inr err =>
          ret ("", Some (errorString
                 ("Mountpoint " +:+ mnt +:+ " is not a directory: " +:+
                  fmt_err (Some err))))
      | inl {| IsDir := false |} =>
          ret ("", Some (errorString
                 ("Mountpoint " +:+ mnt +:+ " is not a directory: " +:+
                  fmt_err None)))
      | inl {| IsDir := true |} =>
          let* '(_, perr) := exec_Command "mountpoint" ["-q"; mnt] in
          match perr with
          | None => ret (mnt, None)
          | Some _ =>
              let* '(dev, err) := attachVolume name in
              match err with
              | Some err => ret ("", Some err)
              | None =>
                  let* '(out, err) := exec_Command "mount" [dev; mnt] in
                  match err with
                  | Some err =>
                      let* _ := detachVolume name in
                      ret ("", Some (errorString
                             ("Mounting device " +:+ dev +:+ " to " +:+ mnt +:+
                              " failed: " +:+ Error err +:+ nl +:+ out)))
                  | None => ret (mnt, None)
                  end
              end
          end
      end
  end.

(** Lines 113-120. *)
Definition Mount (path : string) : M W (string * option error) :=
  let '(volume, folder) := parsePath path in
  let* '(mnt, err) := doMount volume in
  match err with
  | Some err => ret ("", Some err)
  | None => ret (mnt +:+ folder, None)
  end.

(** Lines 122-129. *)
Definition Path (path : string) : M W (string * option error) :=
  let '(volume, folder) := parsePath path in
  let mnt := "/mnt/blocker/" +:+ volume +:+ folder in
  let* st := os_Stat mnt in
  match st with
  | inl {| IsDir := true |} => ret (mnt, None)
  | _ => ret ("", Some (errorString "Volume not mounted."))
  end.

(** Lines 420-440. *)
Definition doUnmount (name : string) : M W (option error) :=
  let mnt := "/mnt/blocker/" +:+ name in
  let* '(out, err) := exec_Command "umount" [mnt] in
  match err with
  | Some err =>
      ret (Some (errorString
             ("Unmounting " +:+ mnt +:+ " failed: " +:+ Error err +:+
              nl +:+ out)))
  | None =>
      let* rerr := os_Remove mnt in
      match rerr with
      | Some err => ret (Some err)
      | None =>
          let* derr := detachVolume name in
          match derr with
          | Some err => ret (Some err)
          | None => ret None
          end
      end
  end.

(** Lines 131-138. *)
Definition Remove (path : string) : M W (option error) :=
  let '(volume, _) := parsePath path in
  let* err := doUnmount volume in
  match err with
  | Some err => ret (Some err)
  | None => ret None
  end.

(** Lines 140-147. *)
Definition Unmount (path : string) : M W (option error) :=
  let '(volume, _) := parsePath path in
  let* err := doUnmount volume in
  match err with
  | Some err => ret (Some err)
  | None => ret None
  end.

(** Lines 149-164.  The nil map of the error return is the empty map. *)
Definition Get (name : string) : M W (gmap string string * option error) :=
  let* ebs_volume := getEBSVolume name in
  match ebs_volume with
  | inr err => ret (∅, Some err)
  | inl ebs_volume =>
      let volume : gmap string string := ∅ in
      let volume := <["Name" := name]> volume in
      let volume := <["AwsVolumeId" := VolumeId ebs_volume]> volume in
      let* '(mount_path, err) := Path name in
      match err with
      | Some _ => ret (<["Mountpoint" := mount_path]> volume, None)
      | None => ret (volume, None)
      end
  end.

(** Lines 180-191: the loop over the described volumes.  [None] is the
    run-time panic of [Tags[0]] on a volume that carries no tag. *)
Fixpoint List_loop (vs : list Volume) : M W (option (list (gmap string string))) :=
  match vs with
  | [] => ret (Some [])
  | v :: rest =>
      match Tags v with
      | [] => ret None
      | tag0 :: _ =>
          let name := Value tag0 in
          let entry : gmap string string := ∅ in
          let entry := <["Name" := name]> entry in
          let entry := <["AwsVolumeId" := VolumeId v]> entry in
          let* '(mount_path, path_err) := Path name in
          let entry :=
            match path_err with
            | Some _ => <["Mountpoint" := mount_path]> entry
            | None => entry
            end in
          let* tl := List_loop rest in
          match tl with
          | Some volumes => ret (Some (entry :: volumes))
          | None => ret None
          end
      end
  end.

(** Lines 166-193. *)
Definition List
  : M W (option (list (gmap string string) * option error)) :=
  let* info :=
    ec2_DescribeVolumes [ {| Name := "tag-key"; Values := ["Name"] |} ] in
  match info with
  | inr err => ret (Some ([], Some err))
  | inl vs =>
      let* volumes := List_loop vs in
      match volumes with
      | Some volumes => ret (Some (volumes, None))
      | None => ret None
      end
  end.

(** Lines 195-199. *)
Definition Capabilities : gmap string string := <["Scope" := "global"]> ∅.

End Driver.

Arguments getEBSVolume : simpl never.
Arguments waitUntilState : simpl never.
Arguments waitUntilAttached : simpl never.
Arguments waitUntilDettached : simpl never.
Arguments waitUntilAvailable : simpl never.
Arguments detachVolume : simpl never.
Arguments attachVolume : simpl never.
Arguments doMount : simpl never.
Arguments doUnmount : simpl never.

(** ** A concrete environment

    [Sim] is a small host and provider on which the driver can be run:
    directories, device nodes and live mount points of the host, the
    provider's volumes, and three switches for how the collaborators
    behave.  Provider transitions are immediate.  It is used for the
    concrete runs below, never in the general theorems. *)
Module Sim.

Record world := {
  dirs : list string;
  devs : list string;
  mounted : list string;
  volumes : list Volume;
  mkfs_ok : bool;
  detach_ok : bool;
  xvd_names : bool
}.

Definition mem (p : string) (l : list string) : bool :=
  existsb (String.eqb p) l.

Definition del (p : string) (l : list string) : list string :=
  List.filter (fun q => negb (String.eqb p q)) l.

Definition noent (op p : string) : error :=
  pathError true (op +:+ " " +:+ p +:+ ": no such file or directory").

Definition sim_lstat (w : world) (p : string) : option error :=
  if mem p (dirs w) || mem p (devs w) then None else Some (noent "lstat" p).

Definition sim_stat (w : world) (p : string) : FileInfo + error :=
  if mem p (dirs w) then inl {| IsDir := true |}
  else if mem p (devs w) then inl {| IsDir := false |}
  else inr (noent "stat" p).

Definition with_fs (w : world) (ds vs ms : list string) : world :=
  {| dirs := ds; devs := vs; mounted := ms; volumes := volumes w;
     mkfs_ok := mkfs_ok w; detach_ok := detach_ok w;
     xvd_names := xvd_names w |}.

Definition with_volumes (w : world) (vols : list Volume) : world :=
  {| dirs := dirs w; devs := devs w; mounted := mounted w; volumes := vols;
     mkfs_ok := mkfs_ok w; detach_ok := detach_ok w;
     xvd_names := xvd_names w |}.

Definition sim_mkdirAll (w : world) (p : string) : option error * world :=
  if mem p (dirs w) then (None, w)
  else (None, with_fs w (p :: dirs w) (devs w) (mounted w)).

Definition sim_remove (w : world) (p : string) : option error * world :=
  if mem p (dirs w)
  then (None, with_fs w (del p (dirs w)) (devs w) (mounted w))
  else (Some (noent "remove" p), w).

Definition failed (out : string) : string * option error :=
  (out, Some (exitError "exit status 1")).

Definition sim_exec (w : world) (cmd : string) (args : list string)
  : (string * option error) * world :=
  if String.eqb cmd "mountpoint" then
    match args with
    | [_; p] => if mem p (mounted w) then (("", None), w) else (failed "", w)
    | _ => (failed "usage", w)
    end
  else if String.eqb cmd "mount" then
    match args with
    | [dev; mnt] =>
        if mem dev (devs w)
        then (("", None), with_fs w (dirs w) (devs w) (mnt :: mounted w))
        else (failed "special device does not exist", w)
    | _ => (failed "usage", w)
    end
  else if String.eqb cmd "umount" then
    match args with
    | [mnt] =>
        if mem mnt (mounted w)
        then (("", None), with_fs w (dirs w) (devs w) (del mnt (mounted w)))
        else (failed "not mounted", w)
    | _ => (failed "usage", w)
    end
  else if String.eqb cmd "mkfs" then
    if mkfs_ok w then (("", None), w) else (failed "bad superblock", w)
  else (failed "command not found", w).

Definition has_tag (k : string) (v : option string) (vol : Volume) : bool :=
  existsb (fun t => String.eqb (Key t) k &&
                    match v with
                    | Some v => String.eqb (Value t) v
                    | None => true
                    end) (Tags vol).

Definition sim_describe (w : world) (fs : list Filter)
  : (list Volume + error) * world :=
  match fs with
  | [ {| Name := n; Values := [v] |} ] =>
      if String.eqb n "tag-key"
      then (inl (List.filter (has_tag v None) (volumes w)), w)
      else if String.eqb n "tag:Name"
      then (inl (List.filter (has_tag "Name" (Some v)) (volumes w)), w)
      else (inl (volumes w), w)
  | _ => (inl (volumes w), w)
  end.

Definition sim_createVolume (w : world) (az : string) (size : Z)
  : (Volume + error) * world :=
  let v := {| VolumeId := "vol-" +:+ pretty (Z.of_nat (length (volumes w)));
              Tags := []; Attachments := [];
              State := VolumeStateAvailable |} in
  (inl v, with_volumes w (volumes w ++ [v])).

Definition update (id : string) (f : Volume -> Volume) (vols : list Volume)
  : list Volume :=
  List.map (fun v => if String.eqb (VolumeId v) id then f v else v) vols.

Definition sim_createTags (w : world) (ids : list string) (tags : list Tag)
  : option error * world :=
  (None,
   with_volumes w
     (fold_right
        (fun id vols =>
           update id (fun v => {| VolumeId := VolumeId v;
                                  Tags := tags ++ Tags v;
                                  Attachments := Attachments v;
                                  State := State v |}) vols)
        (volumes w) ids)).

(** The node a device request shows up as on the host. *)
Definition local_name (w : world) (dev : string) : string :=
  if xvd_names w then "/dev/xvd" +:+ drop_str 7 dev else dev.

Definition sim_attach (w : world) (dev inst id : string)
  : option error * world :=
  if existsb (fun v => String.eqb (VolumeId v) id &&
                       String.eqb (State v) VolumeStateAvailable) (volumes w)
  then
    let w' := with_volumes w
      (update id (fun v =>
         {| VolumeId := VolumeId v; Tags := Tags v;
            Attachments := [ {| Device := dev; InstanceId := inst;
                                AttachState := VolumeAttachmentStateAttached |} ];
            State := "in-use" |}) (volumes w)) in
    (None, with_fs w' (dirs w') (local_name w dev :: devs w') (mounted w'))
  else (Some (awsError "IncorrectState" "volume is not available"), w).

Definition sim_detach (w : world) (inst id : string) : option error * world :=
  if detach_ok w then
    let gone :=
      flat_map (fun v => if String.eqb (VolumeId v) id
                         then List.map (fun a => local_name w (Device a))
                                       (Attachments v)
                         else []) (volumes w) in
    let w' := with_volumes w
      (update id (fun v =>
         {| VolumeId := VolumeId v; Tags := Tags v; Attachments := [];
            State := VolumeStateAvailable |}) (volumes w)) in
    (None, with_fs w' (dirs w')
             (List.filter (fun p => negb (mem p gone)) (devs w')) (mounted w'))
  else (Some (awsError "IncorrectState" "volume is busy"), w).

Definition env : Env world := {|
  lstat := sim_lstat;
  stat := sim_stat;
  mkdirAll := sim_mkdirAll;
  remove := sim_remove;
  exec := sim_exec;
  describeVolumes := sim_describe;
  createVolume := sim_createVolume;
  createTags := sim_createTags;
  ec2AttachVolume := sim_attach;
  ec2DetachVolume := sim_detach;
  sleep := fun w _ => w
|}.

Definition drv : ebsVolumeDriver := {|
  awsInstanceId := "i-0abc";
  awsRegion := "us-east-1";
  awsAvailabilityZone := "us-east-1a"
|}.

(** A host with nothing attached and no volume at the provider. *)
Definition empty : world := {|
  dirs := []; devs := []; mounted := []; volumes := [];
  mkfs_ok := true; detach_ok := true; xvd_names := true
|}.

(** A volume tagged [Name=name], available and unattached. *)
Definition free_volume (id name : string) : Volume := {|
  VolumeId := id;
  Tags := [ {| Key := "Name"; Value := name |} ];
  Attachments := [];
  State := VolumeStateAvailable
|}.

(** A volume tagged [Name=name], attached here under device [dev]. *)
Definition attached_volume (id name dev : string) : Volume := {|
  VolumeId := id;
  Tags := [ {| Key := "Name"; Value := name |} ];
  Attachments := [ {| Device := dev; InstanceId := awsInstanceId drv;
                      AttachState := VolumeAttachmentStateAttached |} ];
  State := "in-use"
|}.

End Sim.

(** ** Vocabulary of the properties *)

(** The lookup [getEBSVolume] issues. *)
Definition lookup_event (name : string) : event :=
  EDescribeVolumes [ {| Name := "tag:Name"; Values := [name] |} ].

(** The shape of a run of the poller with [n] attempts left: its trace
    and its result.  Each attempt is one lookup; the condition is
    evaluated when the lookup succeeds; a failed attempt that is not the
    last is followed by a sleep of five seconds. *)
Inductive polled (name : string) (check : Volume -> option error)
  : nat -> list event -> option error -> Prop :=
| polled_lookup_failed n e :
    polled name check (S n) [lookup_event name] (Some e)
| polled_satisfied n v :
    check v = None ->
    polled name check (S n) [lookup_event name; ECheck v] None
| polled_exhausted v e :
    check v = Some e ->
    polled name check 1 [lookup_event name; ECheck v] (Some e)
| polled_retry n v e t r :
    check v = Some e ->
    polled name check (S n) t r ->
    polled name check (S (S n))
      (lookup_event name :: ECheck v :: ESleep 5 :: t) r.

Section Slots.

Context {W : Type}.
Variable env : Env W.

(** A path exists when [os.Lstat] returns no error. *)
Definition path_exists (w : W) (p : string) : bool :=
  match lstat env w p with
  | None => true
  | Some _ => false
  end.

Definition sd (c : ascii) : string := "/dev/sd" +:+ String c "".
Definition xvd (c : ascii) : string := "/dev/xvd" +:+ String c "".

(** A slot is taken when either of its two local aliases exists. *)
Definition slotTaken (w : W) (c : ascii) : bool :=
  path_exists w (sd c) || path_exists w (xvd c).

End Slots.

(** ** Hosts for the concrete runs *)

Module Hosts.
Import Sim.

(** Two volumes at the provider; vol1 is attached here as /dev/sdf, seen
    locally as /dev/xvdf, and mounted; vol2 is free. *)
Definition vol1_mounted : world := {|
  dirs := ["/mnt/blocker/vol1"];
  devs := ["/dev/xvdf"];
  mounted := ["/mnt/blocker/vol1"];
  volumes := [attached_volume "vol-a" "vol1" "/dev/sdf";
              free_volume "vol-b" "vol2"];
  mkfs_ok := true; detach_ok := true; xvd_names := true
|}.

(** vol1 is free; slot f is taken under its sd alias and slot g under
    its xvd alias. *)
Definition f_g_taken : world := {|
  dirs := [];
  devs := ["/dev/sdf"; "/dev/xvdg"];
  mounted := [];
  volumes := [free_volume "vol-a" "vol1"];
  mkfs_ok := true; detach_ok := true; xvd_names := true
|}.

(** vol1 is free; every slot from f to p is taken, under one alias or
    the other. *)
Definition all_taken : world := {|
  dirs := [];
  devs := ["/dev/sdf"; "/dev/xvdg"; "/dev/sdh"; "/dev/xvdi"; "/dev/sdj";
           "/dev/xvdk"; "/dev/sdl"; "/dev/xvdm"; "/dev/sdn"; "/dev/xvdo";
           "/dev/sdp"];
  mounted := [];
  volumes := [free_volume "vol-a" "vol1"];
  mkfs_ok := true; detach_ok := true; xvd_names := true
|}.

(** vol1 is attached here as /dev/sdf and its node is /dev/xvdf. *)
Definition vol1_attached : world := {|
  dirs := []; devs := ["/dev/xvdf"]; mounted := [];
  volumes := [attached_volume "vol-a" "vol1" "/dev/sdf"];
  mkfs_ok := true; detach_ok := true; xvd_names := true
|}.

(** vol1 is attached here as /dev/sdf according to the provider, but the
    host has neither /dev/sdf nor /dev/xvdf. *)
Definition vol1_attached_no_node : world := {|
  dirs := []; devs := []; mounted := [];
  volumes := [attached_volume "vol-a" "vol1" "/dev/sdf"];
  mkfs_ok := true; detach_ok := true; xvd_names := true
|}.

(** vol1 is attached here under a device name outside f-p. *)
Definition vol1_attached_sdb : world := {|
  dirs := []; devs := ["/dev/sdb"]; mounted := [];
  volumes := [attached_volume "vol-a" "vol1" "/dev/sdb"];
  mkfs_ok := true; detach_ok := true; xvd_names := false
|}.

(** An empty host whose mkfs fails. *)
Definition mkfs_fails : world := {|
  dirs := []; devs := []; mounted := []; volumes := [];
  mkfs_ok := false; detach_ok := true; xvd_names := true
|}.

(** The same host once [Create] has created its volume, tagged it, and
    attached it. *)
Definition mkfs_fails_created : world :=
  with_volumes mkfs_fails
    [ {| VolumeId := "vol-0"; Tags := []; Attachments := [];
         State := "available" |} ].

Definition mkfs_fails_tagged : world :=
  with_volumes mkfs_fails [free_volume "vol-0" "vol1"].

Definition mkfs_fails_attached : world := {|
  dirs := []; devs := ["/dev/xvdf"]; mounted := [];
  volumes := [attached_volume "vol-0" "vol1" "/dev/sdf"];
  mkfs_ok := false; detach_ok := true; xvd_names := true
|}.

(** An empty host whose provider refuses every detach request. *)
Definition detach_refused : world := {|
  dirs := []; devs := []; mounted := []; volumes := [];
  mkfs_ok := true; detach_ok := false; xvd_names := true
|}.

End Hosts.

(** ** Vocabulary of the further properties *)

(** Calls that act on the host: directories and commands. *)
Definition is_local (e : event) : bool :=
  match e with
  | EMkdirAll _ | ERemove _ | EExec _ _ => true
  | _ => false
  end.

(** The seconds slept along a trace. *)
Fixpoint slept (t : list event) : Z :=
  match t with
  | [] => 0
  | ESleep s :: t' => s + slept t'
  | _ :: t' => slept t'
  end.

(** The shape of a run of [detachVolume]: the lookup, then the detach
    request for the volume found, then the wait for the attachments to
    go. *)
Inductive detached (name instance : string)
  : list event -> option error -> Prop :=
| detached_lookup_failed e :
    detached name instance [lookup_event name] (Some e)
| detached_refused vid e :
    detached name instance
      [lookup_event name; EDetachVolume instance vid] (Some e)
| detached_waited vid tw r :
    polled name checkDettached 12 tw r ->
    detached name instance
      (lookup_event name :: EDetachVolume instance vid :: tw) r.

Definition noDevices : error :=
  errorString "No devices available for attach: /dev/sd[f-p] taken.".

Definition deviceMissing (c : ascii) : error :=
  errorString ("Device " +:+ sd c +:+ " is missing after attach.").

(** The shape of a run of the scan of lines 369-417 over the letters
    [cs], for the volume [vid]: a letter is passed over without a call
    (an alias exists), or after a rejected attach request (the provider
    answers InvalidParameterValue); the scan ends at the first letter
    whose request is refused otherwise or accepted. *)
Inductive scanned (name instance vid : string)
  : list ascii -> list event -> string * option error -> Prop :=
| scanned_none :
    scanned name instance vid [] [] ("", Some noDevices)
| scanned_taken c cs t r :
    scanned name instance vid cs t r ->
    scanned name instance vid (c :: cs) t r
| scanned_in_use c cs t r :
    scanned name instance vid cs t r ->
    scanned name instance vid (c :: cs)
      (EAttachVolume (sd c) instance vid :: t) r
| scanned_refused c cs e :
    scanned name instance vid (c :: cs)
      [EAttachVolume (sd c) instance vid] ("", Some e)
| scanned_not_attached c cs tw e :
    polled name checkAttached 12 tw (Some e) ->
    scanned name instance vid (c :: cs)
      (EAttachVolume (sd c) instance vid :: tw) ("", Some e)
| scanned_attached c cs tw dev :
    polled name checkAttached 12 tw None ->
    dev = sd c \/ dev = xvd c ->
    scanned name instance vid (c :: cs)
      (EAttachVolume (sd c) instance vid :: tw) (dev, None)
| scanned_missing c cs tw td rd :
    polled name checkAttached 12 tw None ->
    detached name instance td rd ->
    scanned name instance vid (c :: cs)
      (EAttachVolume (sd c) instance vid :: tw ++ td)
      ("", Some (deviceMissing c)).

(** The shape of a run of [attachVolume] whose lookup found the volume
    [vid]. *)
Inductive attached (name instance vid : string)
  : list event -> string * option error -> Prop :=
| attached_no_device :
    attached name instance vid [lookup_event name]
      ("", Some (errorString ("Unable to find mount device for " +:+ name)))
| attached_already c dev :
    In c slots -> dev = sd c \/ dev = xvd c ->
    attached name instance vid [lookup_event name] (dev, None)
| attached_unavailable tw e :
    polled name checkAvailable 12 tw (Some e) ->
    attached name instance vid (lookup_event name :: tw) ("", Some e)
| attached_scanned tw ts r :
    polled name checkAvailable 12 tw None ->
    scanned name instance vid slots ts r ->
    attached name instance vid (lookup_event name :: tw ++ ts) r.

(** The volume id the first lookup of a run finds, if any. *)
Definition found_id (r : Volume + error) : option string :=
  match r with
  | inl vol => Some (VolumeId vol)
  | inr _ => None
  end.

(** The attach requests for the letters [cs], in order. *)
Definition requests (instance vid : string) (cs : list ascii) : list event :=
  List.map (fun c => EAttachVolume (sd c) instance vid) cs.

(** The number a string of decimal digits denotes, most significant digit
    first, continuing from [acc]. *)
Fixpoint decimal (s : string) (acc : Z) : Z :=
  match s with
  | EmptyString => acc
  | String c s' => decimal s' (10 * acc + digitVal c)
  end.

Fixpoint all_digits (s : string) : bool :=
  match s with
  | EmptyString => true
  | String c s' => isDigit c && all_digits s'
  end.

(** A provider that answers every attach request with
    InvalidParameterValue, on the hosts of [Sim]. *)
Definition in_use_everywhere : Env Sim.world := {|
  lstat := Sim.sim_lstat;
  stat := Sim.sim_stat;
  mkdirAll := Sim.sim_mkdirAll;
  remove := Sim.sim_remove;
  exec := Sim.sim_exec;
  describeVolumes := Sim.sim_describe;
  createVolume := Sim.sim_createVolume;
  createTags := Sim.sim_createTags;
  ec2AttachVolume := fun w _ _ _ =>
    (Some (awsError "InvalidParameterValue" "device is already in use"), w);
  ec2DetachVolume := Sim.sim_detach;
  sleep := fun w _ => w
|}.

(** A host with nothing attached, where the provider already has a
    volume tagged [Name=vol1]. *)
Definition name_taken : Sim.world :=
  Sim.with_volumes Sim.empty [Sim.free_volume "vol-a" "vol1"].

(** * Properties *)

(** ** Running the monad *)

(** Case analysis on whatever the goal is matching on. *)
Ltac case_scrutinee :=
  match goal with
  | |- context [match ?x with _ => _ end] =>
      lazymatch x with
      | context [match _ with _ => _ end] => fail
      | _ => destruct x eqn:?
      end
  end.

Ltac run_monad :=
  unfold time_Sleep, os_Lstat, os_Stat, os_MkdirAll, os_Remove, exec_Command,
    ec2_DescribeVolumes, ec2_CreateVolume, ec2_CreateTags, ec2_AttachVolume,
    ec2_DetachVolume in *;
  unfold bind, ret, call, observe, mark in *.

Ltac inv_pair :=
  repeat match goal with
    | H : (_, _) = (_, _) |- _ => inversion H; subst; clear H
    | H : Some _ = Some _ |- _ => inversion H; subst; clear H
    | H : inl _ = inl _ |- _ => inversion H; subst; clear H
    | H : inr _ = inr _ |- _ => inversion H; subst; clear H
    end.

Lemma bind_observe {W A B} (f : W -> A) (k : A -> M W B) (w : W) :
  bind (observe f) k w = k (f w) w.
Proof.
  unfold bind, observe. destruct (k (f w) w) as [[b w2] t2]. reflexivity.
Qed.

Lemma trace_bind_call {W A B} (e : event) (f : W -> A * W) (k : A -> M W B)
  (w : W) :
  trace_of (bind (call e f) k w) =
  e :: trace_of (k (fst (f w)) (snd (f w))).
Proof.
  unfold bind, call. destruct (f w) as [a w1]. cbn.
  destruct (k a w1) as [[b w2] t2]. reflexivity.
Qed.

(** ** parsePath *)

Lemma append_cons (c : ascii) (a b : string) :
  String c a +:+ b = String c (a +:+ b).
Proof. reflexivity. Qed.

Lemma append_empty_r (s : string) : s +:+ "" = s.
Proof.
  induction s as [|c s IH]; [reflexivity|].
  rewrite append_cons, IH. reflexivity.
Qed.

Lemma append_assoc (a b c : string) : (a +:+ b) +:+ c = a +:+ (b +:+ c).
Proof.
  induction a as [|x a IH]; [reflexivity|].
  rewrite !append_cons, IH. reflexivity.
Qed.

Lemma index_slash_none (p : string) :
  index_slash p = None -> contains_char "/"%char p = false.
Proof.
  induction p as [|c p IH]; simpl; [reflexivity|].
  destruct (Ascii.eqb c "/") eqn:Hc; [discriminate|].
  destruct (index_slash p); [discriminate|].
  intros _. rewrite IH by reflexivity. reflexivity.
Qed.

Lemma index_slash_some (p : string) (n : nat) :
  index_slash p = Some n ->
  contains_char "/"%char (take_str n p) = false /\
  (exists r, drop_str n p = String "/"%char r) /\
  take_str n p +:+ drop_str n p = p.
Proof.
  revert n. induction p as [|c p IH]; simpl; intros n Hn; [discriminate|].
  destruct (Ascii.eqb c "/") eqn:Hc.
  - inversion Hn; subst. apply Ascii.eqb_eq in Hc; subst. simpl.
    repeat split. eexists; reflexivity.
  - destruct (index_slash p) as [m|] eqn:Hm; [|discriminate].
    inversion Hn; subst. destruct (IH m eq_refl) as (H1 & H2 & H3).
    simpl. rewrite Hc, H1. split; [reflexivity|]. split; [exact H2|].
    rewrite append_cons, H3. reflexivity.
Qed.

Lemma parsePath_volume_no_slash (p : string) :
  contains_char "/"%char (fst (parsePath p)) = false.
Proof.
  unfold parsePath. destruct (index_slash p) as [n|] eqn:Hn; simpl.
  - apply (index_slash_some p n Hn).
  - apply index_slash_none, Hn.
Qed.

Lemma parsePath_folder_shape (p : string) :
  snd (parsePath p) = "" \/ exists r, snd (parsePath p) = String "/"%char r.
Proof.
  unfold parsePath. destruct (index_slash p) as [n|] eqn:Hn; simpl.
  - right. apply (index_slash_some p n Hn).
  - left. reflexivity.
Qed.

Lemma parsePath_append (p : string) :
  fst (parsePath p) +:+ snd (parsePath p) = p.
Proof.
  unfold parsePath. destruct (index_slash p) as [n|] eqn:Hn; simpl.
  - apply (index_slash_some p n Hn).
  - apply append_empty_r.
Qed.

Section Orchestrator_facts.

Context {W : Type}.
Variable env : Env W.
Variable d : ebsVolumeDriver.

(** Whenever [doMount] succeeds it returns the directory built from the
    volume name. *)
Lemma doMount_success (name m : string) (w w' : W) (t : list event) :
  doMount env d name w = ((m, None), w', t) -> m = "/mnt/blocker/" +:+ name.
Proof.
  unfold doMount. run_monad.
  repeat (case_scrutinee; simpl); intros H; inv_pair; try discriminate;
    reflexivity.
Qed.

Lemma Mount_success (path s : string) (w w' : W) (t : list event) :
  Mount env d path w = ((s, None), w', t) -> s = "/mnt/blocker/" +:+ path.
Proof.
  unfold Mount. pose proof (parsePath_append path) as E.
  destruct (parsePath path) as [volume folder]. simpl in E. rewrite <- E.
  run_monad.
  destruct (doMount env d volume w) as [[[m err] w1] t1] eqn:Hm.
  destruct err; intros H; inv_pair; try discriminate.
  apply doMount_success in Hm. subst.
  rewrite append_assoc. reflexivity.
Qed.

Lemma Path_checks (path : string) (w : W) :
  Path env path w =
  (match stat env w ("/mnt/blocker/" +:+ path) with
   | inl {| IsDir := true |} => ("/mnt/blocker/" +:+ path, None)
   | _ => ("", Some (errorString "Volume not mounted."))
   end, w, []).
Proof.
  unfold Path. pose proof (parsePath_append path) as E.
  destruct (parsePath path) as [volume folder]. simpl in E. rewrite <- E.
  run_monad.
  destruct (stat env w _) as [[[|]]|]; reflexivity.
Qed.

End Orchestrator_facts.

(** C10: [parsePath] splits a path at its first slash, so that the volume
    has no slash, the folder is empty or starts with a slash, and the two
    concatenate back to the path; hence a successful [Mount] returns the
    mount root followed by the whole path, and [Path] answers from the
    [os.Stat] of exactly that directory, touching nothing. *)
Theorem parsePath_split (p : string) :
  contains_char "/"%char (fst (parsePath p)) = false /\
  (snd (parsePath p) = "" \/ exists r, snd (parsePath p) = String "/"%char r) /\
  fst (parsePath p) +:+ snd (parsePath p) = p /\
  (forall W (env : Env W) d w s w' t,
      Mount env d p w = ((s, None), w', t) -> s = "/mnt/blocker/" +:+ p) /\
  (forall W (env : Env W) w,
      Path env p w =
      (match stat env w ("/mnt/blocker/" +:+ p) with
       | inl {| IsDir := true |} => ("/mnt/blocker/" +:+ p, None)
       | _ => ("", Some (errorString "Volume not mounted."))
       end, w, [])).
Proof.
  split; [apply parsePath_volume_no_slash|].
  split; [apply parsePath_folder_shape|].
  split; [apply parsePath_append|].
  split.
  - intros W env d w s w' t. apply Mount_success.
  - intros W env w. apply Path_checks.
Qed.

(** ** The poller *)

Section Poller_facts.

Context {W : Type}.
Variable env : Env W.
Variable name : string.
Variable check : Volume -> option error.

Lemma getEBSVolume_trace (w : W) :
  trace_of (getEBSVolume env name w) = [lookup_event name].
Proof.
  unfold getEBSVolume. run_monad.
  destruct (describeVolumes env w _) as [[[|v vs]|e] w1]; reflexivity.
Qed.

Lemma waitUntilState_loop_S (fuel : nat) (tries : Z) :
  waitUntilState_loop env (S fuel) tries name check =
  (let* volume := getEBSVolume env name in
   match volume with
   | inr err => ret (Some err)
   | inl volume =>
       let* _ := mark (ECheck volume) in
       match check volume with
       | None => ret None
       | Some err =>
           if tries + 1 =? 12 then ret (Some err)
           else
             let* _ := time_Sleep env 5 in
             waitUntilState_loop env fuel (tries + 1) name check
       end
   end).
Proof. reflexivity. Qed.

Lemma waitUntilState_loop_polled (n : nat) :
  forall (tries : Z) (w : W),
    tries = 11 - Z.of_nat n ->
    let r := waitUntilState_loop env (S n) tries name check w in
    polled name check (S n) (trace_of r) (result_of r).
Proof.
  induction n as [|n IH]; intros tries w Ht; subst tries.
  - cbn [waitUntilState_loop]. unfold getEBSVolume. run_monad.
    destruct (describeVolumes env w _) as [[[|v vs]|e] w1]; cbn;
      try apply polled_lookup_failed.
    destruct (check v) as [e|] eqn:Hc; cbn.
    + apply polled_exhausted, Hc.
    + apply polled_satisfied, Hc.
  - rewrite waitUntilState_loop_S. unfold getEBSVolume. run_monad.
    destruct (describeVolumes env w _) as [[[|v vs]|e] w1];
      cbn -[waitUntilState_loop Z.eqb Z.add Z.sub Z.of_nat];
      try apply polled_lookup_failed.
    destruct (check v) as [e|] eqn:Hc;
      cbn -[waitUntilState_loop Z.eqb Z.add Z.sub Z.of_nat];
      [|apply polled_satisfied, Hc].
    replace (11 - Z.of_nat (S n) + 1) with (11 - Z.of_nat n) by lia.
    destruct (Z.eqb_spec (11 - Z.of_nat n) 12) as [H12|H12]; [lia|].
    pose proof (IH (11 - Z.of_nat n) (sleep env w1 5) eq_refl) as IH'.
    cbv zeta in IH'.
    destruct (waitUntilState_loop env (S n) (11 - Z.of_nat n) name check
                (sleep env w1 5)) as [[r w2] t2].
    eapply polled_retry; [exact Hc | exact IH'].
Qed.

Lemma waitUntilState_polled (w : W) :
  let r := waitUntilState env name check w in
  polled name check 12 (trace_of r) (result_of r).
Proof. apply (waitUntilState_loop_polled 11). reflexivity. Qed.

(** More fuel than the counter allows changes nothing: the loop always
    leaves by one of its [return]s. *)
Lemma waitUntilState_loop_fuel (n k : nat) :
  forall (tries : Z) (w : W),
    tries = 11 - Z.of_nat n ->
    waitUntilState_loop env (S n + k) tries name check w =
    waitUntilState_loop env (S n) tries name check w.
Proof.
  induction n as [|n IH]; intros tries w Ht; subst tries.
  - cbn [waitUntilState_loop Nat.add]. unfold getEBSVolume. run_monad.
    destruct (describeVolumes env w _) as [[[|v vs]|e] w1]; cbn;
      reflexivity.
  - change (S (S n) + k)%nat with (S (S n + k)).
    rewrite !waitUntilState_loop_S. unfold getEBSVolume. run_monad.
    destruct (describeVolumes env w _) as [[[|v vs]|e] w1];
      cbn -[waitUntilState_loop Z.eqb Z.add Z.sub Z.of_nat Nat.add];
      try reflexivity.
    destruct (check v);
      cbn -[waitUntilState_loop Z.eqb Z.add Z.sub Z.of_nat Nat.add];
      [|reflexivity].
    replace (11 - Z.of_nat (S n) + 1) with (11 - Z.of_nat n) by lia.
    destruct (11 - Z.of_nat n =? 12); [reflexivity|].
    rewrite IH by reflexivity. reflexivity.
Qed.

End Poller_facts.

Section Polled_facts.

Variable name : string.
Variable check : Volume -> option error.

Lemma polled_checked_length n t r :
  polled name check n t r -> (length (checked t) <= n)%nat.
Proof. induction 1; cbn in *; lia. Qed.

Lemma polled_sleeps n t r :
  polled name check n t r ->
  (length (List.filter is_sleep t) < n)%nat /\
  Forall (fun e => is_sleep e = true -> e = ESleep 5) t.
Proof.
  induction 1; cbn in *.
  - split; [lia|]. repeat constructor. discriminate.
  - split; [lia|]. repeat constructor; discriminate.
  - split; [lia|]. repeat constructor; discriminate.
  - destruct IHpolled as [Hlen Hall]. split; [lia|].
    constructor; [discriminate|]. constructor; [discriminate|].
    constructor; [reflexivity | exact Hall].
Qed.

Lemma polled_first_satisfied n t r i v :
  polled name check n t r ->
  checked t !! i = Some v -> check v = None ->
  r = None /\ length (checked t) = S i.
Proof.
  intros H. revert i. induction H; intros i Hi Hv; cbn in *.
  - destruct i; discriminate.
  - destruct i as [|[|i]]; try discriminate. auto.
  - destruct i as [|[|i]]; try discriminate. inversion Hi; subst. congruence.
  - destruct i as [|i]; cbn in Hi.
    + inversion Hi; subst. congruence.
    + destruct (IHpolled i Hi Hv) as [-> ->]. auto.
Qed.

Lemma polled_success_last n t r :
  polled name check n t r -> r = None ->
  exists v, last (checked t) = Some v /\ check v = None.
Proof.
  induction 1; intros Hr; try discriminate; cbn.
  - eauto.
  - destruct (IHpolled Hr) as (v' & Hl & Hv'). exists v'. split; [|exact Hv'].
    destruct (checked t) as [|x l]; [discriminate|]. exact Hl.
Qed.

Lemma polled_last_attempt n t r v :
  polled name check (S n) t r ->
  checked t !! n = Some v -> r = check v.
Proof.
  revert t r. induction n as [|n IH]; intros t r H Hv.
  - inversion H; subst; cbn in *; try discriminate;
      inversion Hv; subst; congruence.
  - inversion H; subst; cbn in *; try discriminate.
    eapply IH; eauto.
Qed.

Lemma polled_events n t r :
  polled name check n t r ->
  Forall (fun e => e = lookup_event name \/ is_check e = true \/
                   e = ESleep 5) t.
Proof.
  induction 1; repeat (constructor; auto).
Qed.

End Polled_facts.

(** C5: the poller evaluates its condition at most twelve times (and
    sleeps at most eleven times, five seconds each); the first attempt
    on which the condition holds is the last one and the result is then
    success; and when a twelfth evaluation takes place the result is
    that evaluation's own verdict, so a failure on attempt twelve is
    returned as the condition reported it. *)
Theorem waitUntilState_attempts {W : Type} (env : Env W) (name : string)
  (check : Volume -> option error) (w : W) :
  let r := waitUntilState env name check w in
  let vs := checked (trace_of r) in
  (length vs <= 12)%nat /\
  (length (List.filter is_sleep (trace_of r)) <= 11)%nat /\
  (forall i v, vs !! i = Some v -> check v = None ->
               result_of r = None /\ length vs = S i) /\
  (result_of r = None -> exists v, last vs = Some v /\ check v = None) /\
  (forall v, vs !! 11%nat = Some v -> result_of r = check v).
Proof.
  intros r vs. pose proof (waitUntilState_polled env name check w) as H.
  fold r in H. cbn zeta in H.
  split; [eapply polled_checked_length; eauto|].
  split; [apply polled_sleeps in H; lia|].
  split; [intros i v; eapply polled_first_satisfied; eauto|].
  split; [eapply polled_success_last; eauto|].
  intros v. eapply polled_last_attempt; eauto.
Qed.

(** ** The allocator *)

Section Allocator_facts.

Context {W : Type}.
Variable env : Env W.
Variable d : ebsVolumeDriver.

Lemma trace_no_attach_polled name check n t r :
  polled name check n t r -> List.filter is_attach t = [].
Proof.
  intros H. apply polled_events in H.
  induction H as [|e t He _ IH]; [reflexivity|].
  cbn. rewrite IH.
  destruct He as [->|[He| ->]]; [reflexivity| |reflexivity].
  destruct e; try discriminate; reflexivity.
Qed.

Lemma attachVolume_resolve_pure (name : string) (vol : Volume) (w : W) :
  world_of (attachVolume_resolve env d name vol w) = w /\
  trace_of (attachVolume_resolve env d name vol w) = [].
Proof.
  unfold attachVolume_resolve. run_monad.
  repeat (case_scrutinee; cbn); auto.
Qed.

(** The scan passes over taken slots without issuing any call. *)
Lemma attachVolume_scan_skip (name : string) (vol : Volume)
  (pre post : list ascii) (w : W) :
  (forall c, In c pre -> slotTaken env w c = true) ->
  attachVolume_scan env d name vol (pre ++ post) w =
  attachVolume_scan env d name vol post w.
Proof.
  induction pre as [|c pre IH]; intros Hpre; [reflexivity|].
  assert (Hc : slotTaken env w c = true) by (apply Hpre; left; reflexivity).
  assert (IH' := IH (fun x Hx => Hpre x (or_intror Hx))).
  cbn [app attachVolume_scan]. run_monad.
  unfold slotTaken, path_exists, sd, xvd in Hc.
  destruct (lstat env w ("/dev/sd" +:+ String c "")); cbn.
  - destruct (lstat env w ("/dev/xvd" +:+ String c "")); [discriminate|].
    cbn. rewrite IH'.
    destruct (attachVolume_scan env d name vol post w) as [[r w'] t].
    reflexivity.
  - rewrite IH'.
    destruct (attachVolume_scan env d name vol post w) as [[r w'] t].
    reflexivity.
Qed.

(** At a free slot the scan's first call is the attach request for the
    slot's primary path. *)
Lemma attachVolume_scan_free (name : string) (vol : Volume) (c : ascii)
  (rest : list ascii) (w : W) :
  slotTaken env w c = false ->
  exists t,
    trace_of (attachVolume_scan env d name vol (c :: rest) w) =
    EAttachVolume (sd c) (awsInstanceId d) (VolumeId vol) :: t.
Proof.
  intros Hc. unfold slotTaken, path_exists, sd, xvd in *.
  cbn [attachVolume_scan]. unfold os_Lstat, ec2_AttachVolume.
  rewrite bind_observe.
  destruct (lstat env w ("/dev/sd" +:+ String c "")); [|discriminate].
  rewrite bind_observe.
  destruct (lstat env w ("/dev/xvd" +:+ String c "")); [|discriminate].
  rewrite trace_bind_call. eexists. reflexivity.
Qed.

(** Once the lookup has succeeded, lines 341-356 have fallen through and
    the volume has been seen available, [attachVolume] is its scan. *)
Lemma attachVolume_reaches_scan (name : string) (vol : Volume)
  (w w1 w2 : W) (t1 t2 : list event) :
  getEBSVolume env name w = (inl vol, w1, t1) ->
  result_of (attachVolume_resolve env d name vol w1) = None ->
  waitUntilAvailable env name w1 = (None, w2, t2) ->
  attachVolume env d name w =
  (let '(r, w3, t3) := attachVolume_scan env d name vol slots w2 in
   (r, w3, t1 ++ t2 ++ t3)).
Proof.
  intros H1 H2 H3. unfold attachVolume, bind. rewrite H1.
  destruct (attachVolume_resolve_pure name vol w1) as [Hw Ht].
  destruct (attachVolume_resolve env d name vol w1) as [[early w1'] t1'].
  cbn in H2, Hw, Ht. subst. rewrite H3.
  destruct (attachVolume_scan env d name vol slots w2) as [[r w3] t3].
  reflexivity.
Qed.

Lemma prelude_no_attach (name : string) (vol : Volume)
  (w w1 w2 : W) (t1 t2 : list event) :
  getEBSVolume env name w = (inl vol, w1, t1) ->
  waitUntilAvailable env name w1 = (None, w2, t2) ->
  List.filter is_attach (t1 ++ t2) = [].
Proof.
  intros H1 H3.
  pose proof (getEBSVolume_trace env name w) as Ht1. rewrite H1 in Ht1.
  pose proof (waitUntilState_polled env name checkAvailable w1) as Ht2.
  unfold waitUntilAvailable in H3. rewrite H3 in Ht2.
  cbn in Ht1, Ht2. subst t1. cbn.
  eapply trace_no_attach_polled, Ht2.
Qed.

End Allocator_facts.

(** C2: the candidate letters are f to p in ascending order; the scan
    passes over every slot one of whose two aliases exists, and the first
    attach request [attachVolume] issues names the primary path
    /dev/sd<letter> of the first slot neither of whose aliases exists. *)
Theorem attachVolume_first_free_slot {W : Type} (env : Env W)
  (d : ebsVolumeDriver) (name : string) (vol : Volume) (w w1 w2 : W)
  (t1 t2 : list event) (pre post : list ascii) (c : ascii) :
  getEBSVolume env name w = (inl vol, w1, t1) ->
  result_of (attachVolume_resolve env d name vol w1) = None ->
  waitUntilAvailable env name w1 = (None, w2, t2) ->
  slots = pre ++ c :: post ->
  (forall x, In x pre -> slotTaken env w2 x = true) ->
  slotTaken env w2 c = false ->
  slots = ["f"; "g"; "h"; "i"; "j"; "k"; "l"; "m"; "n"; "o"; "p"]%char /\
  List.filter is_attach (t1 ++ t2) = [] /\
  exists t3,
    trace_of (attachVolume env d name w) =
    t1 ++ t2 ++
    EAttachVolume ("/dev/sd" +:+ String c "") (awsInstanceId d) (VolumeId vol)
      :: t3.
Proof.
  intros H1 H2 H3 Hslots Hpre Hc.
  split; [reflexivity|].
  split; [eapply prelude_no_attach; eauto|].
  rewrite (attachVolume_reaches_scan env d name vol w w1 w2 t1 t2 H1 H2 H3).
  rewrite Hslots, attachVolume_scan_skip by exact Hpre.
  destruct (attachVolume_scan_free env d name vol c post w2 Hc) as [t3 Ht3].
  destruct (attachVolume_scan env d name vol (c :: post) w2) as [[r w3] t].
  cbn in Ht3. subst t. exists t3. reflexivity.
Qed.

(** C3: when each of the eleven candidate slots is taken at the time of
    the scan, [attachVolume] returns the error "No devices available for
    attach: /dev/sd[f-p] taken." and its whole trace, which is that of
    the lookup and of the wait for availability, holds no attach
    request. *)
Theorem attachVolume_exhausted {W : Type} (env : Env W)
  (d : ebsVolumeDriver) (name : string) (vol : Volume) (w w1 w2 : W)
  (t1 t2 : list event) :
  getEBSVolume env name w = (inl vol, w1, t1) ->
  result_of (attachVolume_resolve env d name vol w1) = None ->
  waitUntilAvailable env name w1 = (None, w2, t2) ->
  (forall c, In c slots -> slotTaken env w2 c = true) ->
  length slots = 11%nat /\
  attachVolume env d name w =
  (("", Some (errorString
      "No devices available for attach: /dev/sd[f-p] taken.")),
   w2, t1 ++ t2) /\
  List.filter is_attach (trace_of (attachVolume env d name w)) = [].
Proof.
  intros H1 H2 H3 Hall.
  assert (E : attachVolume env d name w =
    (("", Some (errorString
        "No devices available for attach: /dev/sd[f-p] taken.")),
     w2, t1 ++ t2)).
  { rewrite (attachVolume_reaches_scan env d name vol w w1 w2 t1 t2 H1 H2 H3).
    rewrite <- (app_nil_r slots).
    rewrite attachVolume_scan_skip by exact Hall.
    cbn. rewrite app_nil_r. reflexivity. }
  split; [reflexivity|]. split; [exact E|].
  rewrite E. cbn. eapply prelude_no_attach; eauto.
Qed.

(** What the device pattern can return. *)
Lemma isSlotLetter_slots (c : ascii) : isSlotLetter c = true -> In c slots.
Proof.
  intros H. destruct c as [[] [] [] [] [] [] [] []];
    vm_compute in H; try discriminate; vm_compute; tauto.
Qed.

Lemma slots_isSlotLetter (c : ascii) : In c slots -> isSlotLetter c = true.
Proof.
  intros H. vm_compute in H.
  repeat (destruct H as [<-|H]; [reflexivity|]). destruct H.
Qed.

Lemma matchDeviceAt_shape (s : string) :
  matchDeviceAt s = [] \/
  exists c, isSlotLetter c = true /\
    (matchDeviceAt s = [xvd c; "xv"; String c ""] \/
     matchDeviceAt s = [sd c; "s"; String c ""]).
Proof.
  unfold matchDeviceAt.
  destruct (String.prefix "/dev/xvd" s).
  - destruct (drop_str 8 s) as [|c r]; [left; reflexivity|].
    destruct (isSlotLetter c) eqn:Hc; [|left; reflexivity].
    right. exists c. split; [exact Hc|]. left. reflexivity.
  - destruct (String.prefix "/dev/sd" s); [|left; reflexivity].
    destruct (drop_str 7 s) as [|c r]; [left; reflexivity|].
    destruct (isSlotLetter c) eqn:Hc; [|left; reflexivity].
    right. exists c. split; [exact Hc|]. right. reflexivity.
Qed.

Lemma FindStringSubmatch_shape (s : string) :
  FindStringSubmatch s = [] \/
  exists c, isSlotLetter c = true /\
    (FindStringSubmatch s = [xvd c; "xv"; String c ""] \/
     FindStringSubmatch s = [sd c; "s"; String c ""]).
Proof.
  induction s as [|a s IH].
  - left. reflexivity.
  - cbn [FindStringSubmatch].
    destruct (matchDeviceAt_shape (String a s)) as [->|(c & Hc & [->| ->])].
    + exact IH.
    + right. exists c. auto.
    + right. exists c. auto.
Qed.

Section Resolve_facts.

Context {W : Type}.
Variable env : Env W.
Variable d : ebsVolumeDriver.

(** Lines 341-356 on a volume with one attachment, attached to this
    host. *)
Lemma attachVolume_resolve_attached (name : string) (vol : Volume)
  (a : VolumeAttachment) (w : W) :
  Attachments vol = [a] ->
  AttachState a = VolumeAttachmentStateAttached ->
  InstanceId a = awsInstanceId d ->
  result_of (attachVolume_resolve env d name vol w) =
  let res := FindStringSubmatch (Device a) in
  if negb (Nat.eqb (length res) 3) then
    Some ("", Some (errorString ("Unable to find mount device for " +:+ name)))
  else if path_exists env w ("/dev/sd" +:+ at_index res 2) then
    Some ("/dev/sd" +:+ at_index res 2, None)
  else if path_exists env w ("/dev/xvd" +:+ at_index res 2) then
    Some ("/dev/xvd" +:+ at_index res 2, None)
  else None.
Proof.
  intros Ha Hs Hi. unfold attachVolume_resolve, path_exists.
  rewrite Ha, Hs, Hi, !String.eqb_refl. cbn [andb]. cbv zeta.
  destruct (negb _); [reflexivity|].
  unfold os_Lstat. rewrite bind_observe.
  destruct (lstat env w ("/dev/sd" +:+ _)); [|reflexivity].
  rewrite bind_observe.
  destruct (lstat env w ("/dev/xvd" +:+ _)); reflexivity.
Qed.

Lemma attachVolume_early (name : string) (vol : Volume) (w w1 : W)
  (t1 : list event) (r : string * option error) :
  getEBSVolume env name w = (inl vol, w1, t1) ->
  result_of (attachVolume_resolve env d name vol w1) = Some r ->
  attachVolume env d name w = (r, w1, [lookup_event name]).
Proof.
  intros H1 H2. unfold attachVolume, bind.
  pose proof (getEBSVolume_trace env name w) as Ht1.
  rewrite H1 in *. cbn in Ht1. subst t1.
  destruct (attachVolume_resolve_pure env d name vol w1) as [Hw Ht].
  destruct (attachVolume_resolve env d name vol w1) as [[early w1'] t1'].
  cbn in H2, Hw, Ht. subst. reflexivity.
Qed.

End Resolve_facts.

(** C4, as the code has it: when the volume has exactly one attachment,
    owned by this host and in state attached, what [attachVolume] does
    is decided by the device name of the attachment and by the local
    aliases.  The pattern /dev/(xv|s)d[f-p] either does not match the
    name, and [attachVolume] fails with "Unable to find mount device
    for <name>", or it yields a letter from f to p.  If then
    /dev/sd<letter> exists it is returned, else if /dev/xvd<letter>
    exists it is returned; in these three cases the lookup is the only
    call issued, so no attach request and no wait.  If neither alias
    exists [attachVolume] goes on as for any other volume: the wait for
    availability, then the scan. *)
Theorem attachVolume_already_attached {W : Type} (env : Env W)
  (d : ebsVolumeDriver) (name : string) (vol : Volume)
  (a : VolumeAttachment) (w w1 : W) (t1 : list event) :
  getEBSVolume env name w = (inl vol, w1, t1) ->
  Attachments vol = [a] ->
  AttachState a = VolumeAttachmentStateAttached ->
  InstanceId a = awsInstanceId d ->
  let res := FindStringSubmatch (Device a) in
  let letter := at_index res 2 in
  (res = [] \/
   exists c, In c slots /\ letter = String c "" /\ length res = 3%nat) /\
  attachVolume env d name w =
  if negb (Nat.eqb (length res) 3) then
    (("", Some (errorString ("Unable to find mount device for " +:+ name))),
     w1, [lookup_event name])
  else if path_exists env w1 ("/dev/sd" +:+ letter) then
    (("/dev/sd" +:+ letter, None), w1, [lookup_event name])
  else if path_exists env w1 ("/dev/xvd" +:+ letter) then
    (("/dev/xvd" +:+ letter, None), w1, [lookup_event name])
  else
    let '(werr, w2, t2) := waitUntilAvailable env name w1 in
    match werr with
    | Some err => (("", Some err), w2, lookup_event name :: t2)
    | None =>
        let '(r, w3, t3) := attachVolume_scan env d name vol slots w2 in
        (r, w3, lookup_event name :: t2 ++ t3)
    end.
Proof.
  intros H1 Ha Hs Hi res letter. split.
  - subst letter res.
    destruct (FindStringSubmatch_shape (Device a))
      as [->|(c & Hc & [->| ->])]; [left; reflexivity| |];
      right; exists c; (split; [apply isSlotLetter_slots, Hc|]);
      split; reflexivity.
  - pose proof (attachVolume_resolve_attached env d name vol a w1 Ha Hs Hi)
      as Hr.
    cbv zeta in Hr. fold res in Hr. fold letter in Hr.
    destruct (negb (Nat.eqb (length res) 3)).
    { apply (attachVolume_early env d name vol w w1 t1 _ H1), Hr. }
    destruct (path_exists env w1 ("/dev/sd" +:+ letter)).
    { apply (attachVolume_early env d name vol w w1 t1 _ H1), Hr. }
    destruct (path_exists env w1 ("/dev/xvd" +:+ letter)).
    { apply (attachVolume_early env d name vol w w1 t1 _ H1), Hr. }
    pose proof (getEBSVolume_trace env name w) as Ht1.
    rewrite H1 in Ht1. cbn in Ht1. subst t1.
    unfold attachVolume, bind. rewrite H1.
    destruct (attachVolume_resolve_pure env d name vol w1) as [Hw Ht].
    destruct (attachVolume_resolve env d name vol w1) as [[early w1'] t1'].
    cbn in Hr, Hw, Ht. subst.
    unfold ret.
    destruct (waitUntilAvailable env name w1) as [[[err|] w2] t2];
      cbv beta iota; [rewrite app_nil_r; reflexivity|].
    destruct (attachVolume_scan env d name vol slots w2) as [[r w3] t3].
    reflexivity.
Qed.

(** ** Mount, Unmount and Remove *)

(** C7: when the mount directory is there (MkdirAll succeeds and Stat
    sees a directory) and the mountpoint command reports a live mount,
    [Mount] returns the mount root followed by the path, which is what
    every successful [Mount] of that path returns, and issues nothing
    but those two local calls: no provider call, so no attach. *)
Theorem Mount_already_mounted {W : Type} (env : Env W) (d : ebsVolumeDriver)
  (path out : string) (w w1 w2 : W) :
  let mnt := "/mnt/blocker/" +:+ fst (parsePath path) in
  mkdirAll env w mnt = (None, w1) ->
  stat env w1 mnt = inl {| IsDir := true |} ->
  exec env w1 "mountpoint" ["-q"; mnt] = ((out, None), w2) ->
  Mount env d path w =
  (("/mnt/blocker/" +:+ path, None), w2,
   [EMkdirAll mnt; EExec "mountpoint" ["-q"; mnt]]) /\
  List.filter is_provider (trace_of (Mount env d path w)) = [] /\
  (forall w0 s w0' t0,
      Mount env d path w0 = ((s, None), w0', t0) ->
      s = "/mnt/blocker/" +:+ path).
Proof.
  intros mnt Hmk Hst Hmp. subst mnt.
  assert (E : Mount env d path w =
    (("/mnt/blocker/" +:+ path, None), w2,
     [EMkdirAll ("/mnt/blocker/" +:+ fst (parsePath path));
      EExec "mountpoint" ["-q"; "/mnt/blocker/" +:+ fst (parsePath path)]])).
  { unfold Mount, doMount. pose proof (parsePath_append path) as E.
    destruct (parsePath path) as [volume folder]. cbn [fst snd] in *.
    run_monad. rewrite Hmk, Hst, Hmp. cbn.
    rewrite append_assoc, E. reflexivity. }
  split; [exact E|]. split; [rewrite E; reflexivity|].
  intros w0 s w0' t0. apply Mount_success.
Qed.

(** C8: [Unmount] and [Remove] are the same operation on the volume part
    of the path: the umount command, then the removal of the mount
    directory, then the detach, each only if the one before succeeded.
    When umount fails the result is that failure and the umount command
    is the only call issued. *)
Theorem Unmount_steps {W : Type} (env : Env W) (d : ebsVolumeDriver)
  (path : string) (w : W) :
  let volume := fst (parsePath path) in
  let mnt := "/mnt/blocker/" +:+ volume in
  Unmount env d path w = Remove env d path w /\
  Unmount env d path w =
  match exec env w "umount" [mnt] with
  | ((out, Some err), w1) =>
      (Some (errorString ("Unmounting " +:+ mnt +:+ " failed: " +:+
                          Error err +:+ nl +:+ out)),
       w1, [EExec "umount" [mnt]])
  | ((out, None), w1) =>
      match remove env w1 mnt with
      | (Some err, w2) => (Some err, w2, [EExec "umount" [mnt]; ERemove mnt])
      | (None, w2) =>
          let r := detachVolume env d volume w2 in
          (result_of r, world_of r,
           EExec "umount" [mnt] :: ERemove mnt :: trace_of r)
      end
  end.
Proof.
  intros volume mnt. split; [reflexivity|].
  unfold Unmount, doUnmount. subst volume mnt.
  destruct (parsePath path) as [volume folder]. cbn [fst].
  run_monad.
  destruct (exec env w "umount" _) as [[out [err|]] w1]; cbn; [reflexivity|].
  destruct (remove env w1 _) as [[err|] w2]; cbn; [reflexivity|].
  destruct (detachVolume env d volume w2) as [[[err|] w3] t3]; cbn;
    rewrite !app_nil_r; reflexivity.
Qed.

(** ** Create *)

Lemma checked_app (a b : list event) :
  checked (a ++ b) = checked a ++ checked b.
Proof.
  induction a as [|e a IH]; [reflexivity|].
  destruct e; cbn; rewrite IH; reflexivity.
Qed.

Section Create_facts.

Context {W : Type}.
Variable env : Env W.
Variable d : ebsVolumeDriver.

(** A detach that reports success has last seen the volume without any
    attachment. *)
Lemma detachVolume_success (name : string) (w : W) :
  result_of (detachVolume env d name w) = None ->
  exists v,
    last (checked (trace_of (detachVolume env d name w))) = Some v /\
    Attachments v = [].
Proof.
  unfold detachVolume, bind.
  pose proof (getEBSVolume_trace env name w) as Ht1.
  destruct (getEBSVolume env name w) as [[[vol|e] w1] t1]; cbn;
    [|discriminate].
  cbn in Ht1. subst t1. unfold ec2_DetachVolume, call.
  destruct (ec2DetachVolume env w1 _ _) as [[e|] w2]; cbn; [discriminate|].
  pose proof (waitUntilState_polled env name checkDettached w2) as Hp.
  unfold waitUntilDettached.
  destruct (waitUntilState env name checkDettached w2) as [[[e|] w3] t3];
    cbn in *; [discriminate|].
  intros _. unfold result_of, trace_of in Hp. cbn in Hp. destruct (polled_success_last _ _ _ _ _ Hp eq_refl) as (v & Hl & Hv).
  exists v. rewrite app_nil_r. split.
  - destruct (checked t3) as [|x l]; [discriminate|]. exact Hl.
  - unfold checkDettached in Hv.
    destruct (Attachments v); [reflexivity|discriminate].
Qed.

Lemma Create_first_call (name : string) (options : gmap string string)
  (w : W) :
  exists t,
    trace_of (Create env d name options w) =
    ECreateVolume (awsAvailabilityZone d)
      (fst (ParseInt (default "" (options !! "size")))) :: t.
Proof.
  unfold Create, ec2_CreateVolume. rewrite trace_bind_call.
  eexists. reflexivity.
Qed.

End Create_facts.

(** The digit loop ends in one of three ways. *)
Lemma ParseUint_loop_cases (s : string) :
  forall n,
    (exists m, ParseUint_loop s n = (m, None)) \/
    ParseUint_loop s n = (0, Some ErrSyntax) \/
    ParseUint_loop s n = (maxUint64, Some ErrRange).
Proof.
  induction s as [|c s IH]; intros n; cbn [ParseUint_loop].
  - left. eexists. reflexivity.
  - destruct (isDigit c); [|right; left; reflexivity].
    cbv zeta. destruct (n >=? _); [right; right; reflexivity|].
    destruct (_ || _); [right; right; reflexivity|].
    apply IH.
Qed.

(** What [ParseInt] can return: a value with no error, zero with a
    syntax error, or one of the two bounds with a range error. *)
Lemma ParseInt_cases (s : string) :
  snd (ParseInt s) = None \/
  ParseInt s = (0, Some (numError "ParseInt" s ErrSyntax)) \/
  ParseInt s = (maxInt64, Some (numError "ParseInt" s ErrRange)) \/
  ParseInt s = (minInt64, Some (numError "ParseInt" s ErrRange)).
Proof.
  destruct s as [|c0 rest]; [right; left; reflexivity|].
  unfold ParseInt.
  set (body := if Ascii.eqb c0 "+" then rest
               else if Ascii.eqb c0 "-" then rest else String c0 rest).
  assert (H : (exists m, ParseUint body = (m, None)) \/
              ParseUint body = (0, Some ErrSyntax) \/
              ParseUint body = (maxUint64, Some ErrRange)).
  { unfold ParseUint. destruct body; [right; left; reflexivity|].
    apply ParseUint_loop_cases. }
  destruct H as [[m ->]|[->| ->]]; [|right; left; reflexivity|].
  - destruct (negb _ && _); [right; right; left; reflexivity|].
    destruct (_ && _); [right; right; right; reflexivity|].
    left. reflexivity.
  - destruct (Ascii.eqb c0 "-"); cbn.
    + right; right; right. reflexivity.
    + right; right; left. reflexivity.
Qed.

(** A value that does not start, after an optional sign, with a decimal
    digit is a syntax error, hence zero. *)
Lemma ParseInt_no_leading_digit (s : string) :
  match (match s with
         | String c rest =>
             if Ascii.eqb c "+" || Ascii.eqb c "-" then rest else s
         | EmptyString => s
         end) with
  | String c _ => isDigit c = false
  | EmptyString => True
  end ->
  ParseInt s = (0, Some (numError "ParseInt" s ErrSyntax)).
Proof.
  destruct s as [|c0 rest]; [reflexivity|].
  unfold ParseInt. destruct (Ascii.eqb c0 "+"); cbn [orb].
  - destruct rest as [|c r]; [reflexivity|]. intros H. cbn. rewrite H.
    reflexivity.
  - destruct (Ascii.eqb c0 "-"); cbn [orb].
    + destruct rest as [|c r]; [reflexivity|]. intros H. cbn. rewrite H.
      reflexivity.
    + intros H. cbn. rewrite H. reflexivity.
Qed.

(** C6, as the code has it: once the volume is attached, [Create] runs
    the format command and then [detachVolume], whether the format
    succeeded or not, and drops the detach's result: the error returned
    is the formatting error when the format failed and nil otherwise.
    When that detach reports success, the last state it fetched shows
    the volume without attachment. *)
Theorem Create_detaches_after_format {W : Type} (env : Env W)
  (d : ebsVolumeDriver) (name : string) (options : gmap string string)
  (vol : Volume) (terr ferr : option error) (device out : string)
  (w w1 w2 w3 w4 : W) (t3 : list event) :
  let size := fst (ParseInt (default "" (options !! "size"))) in
  let tags := [ {| Key := "Name"; Value := name |} ] in
  createVolume env w (awsAvailabilityZone d) size = (inl vol, w1) ->
  createTags env w1 [VolumeId vol] tags = (terr, w2) ->
  attachVolume env d name w2 = ((device, None), w3, t3) ->
  exec env w3 "mkfs" ["-t"; "ext4"; device] = ((out, ferr), w4) ->
  let r := detachVolume env d name w4 in
  Create env d name options w =
  (match ferr with
   | Some err =>
       Some (errorString ("Formatting device " +:+ device +:+ " failed: " +:+
                          Error err +:+ nl +:+ out))
   | None => None
   end,
   world_of r,
   ECreateVolume (awsAvailabilityZone d) size
     :: ECreateTags [VolumeId vol] tags
     :: t3 ++ EExec "mkfs" ["-t"; "ext4"; device] :: trace_of r) /\
  (result_of r = None ->
   exists v, last (checked (trace_of r)) = Some v /\ Attachments v = []).
Proof.
  intros size tags Hcv Hct Hat Hmk r. split.
  - unfold Create. run_monad. fold size. rewrite Hcv. cbn.
    fold tags. rewrite Hct, Hat. cbn. rewrite Hmk. subst r.
    destruct ferr; cbn;
      destruct (detachVolume env d name w4) as [[derr w5] t5]; cbn;
      rewrite ?app_nil_r; reflexivity.
  - apply detachVolume_success.
Qed.

(** C9, as the code has it: [Create] never rejects a request on account
    of its size option.  The first call it issues is the provider's
    volume creation, with the value [ParseInt] returned for the option
    (the empty string when the option is missing), the parse error being
    dropped.  That value is zero when the option is missing and whenever
    [ParseInt] reports a syntax error, and it is the largest or the
    smallest 64-bit integer when [ParseInt] reports a range error. *)
Theorem Create_size_lenient {W : Type} (env : Env W) (d : ebsVolumeDriver)
  (name : string) (options : gmap string string) (w : W) :
  let s := default "" (options !! "size") in
  (exists t,
     trace_of (Create env d name options w) =
     ECreateVolume (awsAvailabilityZone d) (fst (ParseInt s)) :: t) /\
  (options !! "size" = None -> fst (ParseInt s) = 0) /\
  (snd (ParseInt s) = None \/
   ParseInt s = (0, Some (numError "ParseInt" s ErrSyntax)) \/
   ParseInt s = (maxInt64, Some (numError "ParseInt" s ErrRange)) \/
   ParseInt s = (minInt64, Some (numError "ParseInt" s ErrRange))).
Proof.
  intros s. split; [apply Create_first_call|]. split.
  - intros Hnone. subst s. rewrite Hnone. reflexivity.
  - apply ParseInt_cases.
Qed.

(** ** Concrete runs *)


(** C1: on a host where vol1 is mounted and vol2 is not, [Path] finds
    the mount directory of vol1 and not that of vol2, yet the map [Get]
    and [List] return for vol1 has no Mountpoint key, and the one for
    vol2 has it, bound to the empty string: the key is set on the
    failure of the lookup instead of on its success. *)
Theorem Get_List_mountpoint_inverted :
  let w := Hosts.vol1_mounted in
  let key (m : gmap string string) := (m !! "Name", m !! "Mountpoint") in
  result_of (Path Sim.env "vol1" w) = ("/mnt/blocker/vol1", None) /\
  result_of (Path Sim.env "vol2" w) =
    ("", Some (errorString "Volume not mounted.")) /\
  snd (result_of (Get Sim.env "vol1" w)) = None /\
  key (fst (result_of (Get Sim.env "vol1" w))) = (Some "vol1", None) /\
  key (fst (result_of (Get Sim.env "vol2" w))) = (Some "vol2", Some "") /\
  option_map (fun r => (List.map key (fst r), snd r))
    (result_of (List Sim.env w)) =
  Some ([(Some "vol1", None); (Some "vol2", Some "")], None).
Proof. vm_compute. repeat split. Qed.

(** C2, on a host where f and g are taken, one under each alias, and h
    is free: the first attach request names /dev/sdh. *)
Lemma attachVolume_first_free_slot_witness :
  let w := Hosts.f_g_taken in
  slotTaken Sim.env w "f" = true /\
  slotTaken Sim.env w "g" = true /\
  slotTaken Sim.env w "h" = false /\
  exists t3,
    trace_of (attachVolume Sim.env Sim.drv "vol1" w) =
    [lookup_event "vol1"] ++
    [lookup_event "vol1"; ECheck (Sim.free_volume "vol-a" "vol1")] ++
    EAttachVolume "/dev/sdh" "i-0abc" "vol-a" :: t3.
Proof.
  cbv zeta. repeat (split; [vm_compute; reflexivity|]).
  apply (attachVolume_first_free_slot Sim.env Sim.drv "vol1"
           (Sim.free_volume "vol-a" "vol1")
           Hosts.f_g_taken Hosts.f_g_taken Hosts.f_g_taken
           [lookup_event "vol1"]
           [lookup_event "vol1"; ECheck (Sim.free_volume "vol-a" "vol1")]
           ["f"; "g"]%char
           ["i"; "j"; "k"; "l"; "m"; "n"; "o"; "p"]%char "h"%char);
    try (vm_compute; reflexivity).
  intros x [<-|[<-|[]]]; vm_compute; reflexivity.
Defined.

(** C3, on a host where every slot from f to p is taken. *)
Lemma attachVolume_exhausted_witness :
  let w := Hosts.all_taken in
  attachVolume Sim.env Sim.drv "vol1" w =
  (("", Some (errorString
      "No devices available for attach: /dev/sd[f-p] taken.")),
   w,
   [lookup_event "vol1"] ++
   [lookup_event "vol1"; ECheck (Sim.free_volume "vol-a" "vol1")]) /\
  List.filter is_attach
    (trace_of (attachVolume Sim.env Sim.drv "vol1" w)) = [].
Proof.
  cbv zeta.
  apply (attachVolume_exhausted Sim.env Sim.drv "vol1"
           (Sim.free_volume "vol-a" "vol1")
           Hosts.all_taken Hosts.all_taken Hosts.all_taken
           [lookup_event "vol1"]
           [lookup_event "vol1"; ECheck (Sim.free_volume "vol-a" "vol1")]);
    try (vm_compute; reflexivity).
  intros c Hc. vm_compute in Hc.
  repeat (destruct Hc as [<-|Hc]; [vm_compute; reflexivity|]).
  destruct Hc.
Defined.

(** C4 as stated fails on two hosts where vol1 has one attachment, owned
    by this host and attached.  Where neither /dev/sdf nor /dev/xvdf
    exists, [attachVolume] goes on to wait for the volume to become
    available: twelve polls, eleven sleeps, and the wait's error.  Where
    the device name is /dev/sdb, it returns an error and no path. *)
Lemma attachVolume_attached_not_resolved :
  let w := Hosts.vol1_attached_no_node in
  let r := attachVolume Sim.env Sim.drv "vol1" w in
  result_of (getEBSVolume Sim.env "vol1" w) =
    inl (Sim.attached_volume "vol-a" "vol1" "/dev/sdf") /\
  result_of r =
    ("", Some (errorString
       "Volume state transition failed: seeking available, current is in-use"))
  /\
  length (checked (trace_of r)) = 12%nat /\
  List.filter is_sleep (trace_of r) = List.repeat (ESleep 5) 11 /\
  result_of (getEBSVolume Sim.env "vol1" Hosts.vol1_attached_sdb) =
    inl (Sim.attached_volume "vol-a" "vol1" "/dev/sdb") /\
  result_of (attachVolume Sim.env Sim.drv "vol1" Hosts.vol1_attached_sdb) =
    ("", Some (errorString "Unable to find mount device for vol1")).
Proof. vm_compute. repeat split. Qed.

(** C4, on a host where vol1 is attached as /dev/sdf and seen as
    /dev/xvdf. *)
Lemma attachVolume_already_attached_witness :
  let w := Hosts.vol1_attached in
  attachVolume Sim.env Sim.drv "vol1" w =
  (("/dev/xvdf", None), w, [lookup_event "vol1"]).
Proof.
  cbv zeta.
  pose proof (attachVolume_already_attached Sim.env Sim.drv "vol1"
                (Sim.attached_volume "vol-a" "vol1" "/dev/sdf")
                {| Device := "/dev/sdf"; InstanceId := "i-0abc";
                   AttachState := "attached" |}
                Hosts.vol1_attached Hosts.vol1_attached
                [lookup_event "vol1"]
                eq_refl eq_refl eq_refl eq_refl) as H.
  cbv zeta in H. destruct H as [_ E]. rewrite E.
  vm_compute. reflexivity.
Defined.

(** C5, on a host where vol1 stays in use: the wait for availability
    evaluates its condition twelve times and returns what the condition
    said of the volume. *)
Lemma waitUntilState_attempts_witness :
  let r := waitUntilState Sim.env "vol1" checkAvailable
             Hosts.vol1_attached in
  length (checked (trace_of r)) = 12%nat /\
  result_of r = checkAvailable (Sim.attached_volume "vol-a" "vol1" "/dev/sdf").
Proof.
  cbv zeta.
  pose proof (waitUntilState_attempts Sim.env "vol1" checkAvailable
                Hosts.vol1_attached) as H.
  cbv zeta in H. destruct H as (_ & _ & _ & _ & H12).
  split; [vm_compute; reflexivity|].
  apply H12. vm_compute. reflexivity.
Defined.

(** C6 as stated fails where the provider refuses the detach request:
    the format succeeds, [Create] returns nil, and the volume it created
    is left attached to this host, in use. *)
Lemma Create_leaves_attachment :
  let r := Create Sim.env Sim.drv "vol1" {[ "size" := "10" ]}
             Hosts.detach_refused in
  result_of r = None /\
  List.filter is_detach (trace_of r) = [EDetachVolume "i-0abc" "vol-0"] /\
  Sim.volumes (world_of r) = [Sim.attached_volume "vol-0" "vol1" "/dev/sdf"].
Proof. vm_compute. repeat split. Qed.

(** C6, on a host whose mkfs fails: the formatting error is returned and
    the detach that follows leaves the volume without attachment. *)
Lemma Create_detaches_after_format_witness :
  let r := Create Sim.env Sim.drv "vol1" {[ "size" := "10" ]}
             Hosts.mkfs_fails in
  result_of r =
    Some (errorString
            ("Formatting device /dev/xvdf failed: exit status 1" +:+ nl +:+
             "bad superblock")) /\
  List.filter is_detach (trace_of r) = [EDetachVolume "i-0abc" "vol-0"] /\
  Sim.volumes (world_of r) = [Sim.free_volume "vol-0" "vol1"].
Proof.
  cbv zeta.
  destruct (Create_detaches_after_format Sim.env Sim.drv "vol1"
              {[ "size" := "10" ]}
              {| VolumeId := "vol-0"; Tags := []; Attachments := [];
                 State := "available" |}
              None (Some (exitError "exit status 1"))
              "/dev/xvdf" "bad superblock"
              Hosts.mkfs_fails
              Hosts.mkfs_fails_created
              Hosts.mkfs_fails_tagged
              Hosts.mkfs_fails_attached
              Hosts.mkfs_fails_attached
              [lookup_event "vol1"; lookup_event "vol1";
               ECheck (Sim.free_volume "vol-0" "vol1");
               EAttachVolume "/dev/sdf" "i-0abc" "vol-0";
               lookup_event "vol1";
               ECheck (Sim.attached_volume "vol-0" "vol1" "/dev/sdf")])
    as [E _]; try (vm_compute; reflexivity).
  rewrite E. vm_compute. repeat split.
Defined.

(** C7, on the host where vol1 is mounted. *)
Lemma Mount_already_mounted_witness :
  let w := Hosts.vol1_mounted in
  Mount Sim.env Sim.drv "vol1/data" w =
  (("/mnt/blocker/vol1/data", None), w,
   [EMkdirAll "/mnt/blocker/vol1";
    EExec "mountpoint" ["-q"; "/mnt/blocker/vol1"]]).
Proof.
  cbv zeta.
  apply (Mount_already_mounted Sim.env Sim.drv "vol1/data" ""
           Hosts.vol1_mounted Hosts.vol1_mounted Hosts.vol1_mounted);
    vm_compute; reflexivity.
Defined.

(** C8, on the host where vol1 is mounted and vol2 is not: unmounting
    vol1 runs the three steps in order; unmounting vol2 stops at the
    failed umount. *)
Lemma Unmount_steps_witness :
  let w := Hosts.vol1_mounted in
  result_of (Unmount Sim.env Sim.drv "vol1/data" w) = None /\
  List.filter (fun e => negb (is_describe e || is_check e))
    (trace_of (Unmount Sim.env Sim.drv "vol1/data" w)) =
  [EExec "umount" ["/mnt/blocker/vol1"]; ERemove "/mnt/blocker/vol1";
   EDetachVolume "i-0abc" "vol-a"] /\
  trace_of (Remove Sim.env Sim.drv "vol2" w) =
  [EExec "umount" ["/mnt/blocker/vol2"]] /\
  world_of (Remove Sim.env Sim.drv "vol2" w) = w.
Proof.
  cbv zeta.
  rewrite <- (proj1 (Unmount_steps Sim.env Sim.drv "vol2" Hosts.vol1_mounted)).
  rewrite !(proj2 (Unmount_steps Sim.env Sim.drv _ Hosts.vol1_mounted)).
  vm_compute. repeat split.
Defined.

(** C9 as stated fails on a size whose digits overflow 64 bits: the
    error is dropped like any other, but the size requested from the
    provider is the largest 64-bit integer, not zero. *)
Lemma Create_size_overflow :
  ParseInt "99999999999999999999" =
    (9223372036854775807,
     Some (numError "ParseInt" "99999999999999999999" ErrRange)) /\
  head (trace_of (Create Sim.env Sim.drv "vol1"
                    {[ "size" := "99999999999999999999" ]} Sim.empty)) =
    Some (ECreateVolume "us-east-1a" 9223372036854775807).
Proof. vm_compute. split; reflexivity. Qed.

(** C9, without a size option and with one that is not a number. *)
Lemma Create_size_lenient_witness :
  head (trace_of (Create Sim.env Sim.drv "vol1" ∅ Sim.empty)) =
    Some (ECreateVolume "us-east-1a" 0) /\
  head (trace_of (Create Sim.env Sim.drv "vol1" {[ "size" := "10GB" ]}
                    Sim.empty)) =
    Some (ECreateVolume "us-east-1a" 0).
Proof.
  split.
  - destruct (Create_size_lenient Sim.env Sim.drv "vol1" ∅ Sim.empty)
      as ([t ->] & _). reflexivity.
  - destruct (Create_size_lenient Sim.env Sim.drv "vol1"
                {[ "size" := "10GB" ]} Sim.empty) as ([t ->] & _).
    vm_compute. reflexivity.
Defined.

(** C10, on the path vol1/data of the host where vol1 is mounted. *)
Lemma parsePath_split_witness :
  parsePath "vol1/data" = ("vol1", "/data") /\
  fst (result_of (Mount Sim.env Sim.drv "vol1/data" Hosts.vol1_mounted)) =
  "/mnt/blocker/vol1/data".
Proof.
  split; [reflexivity|].
  destruct (parsePath_split "vol1/data") as (_ & _ & _ & HM & _).
  destruct (Mount Sim.env Sim.drv "vol1/data" Hosts.vol1_mounted)
    as [[[s err] w'] t] eqn:E.
  assert (err = None) as -> by (vm_compute in E; congruence).
  exact (HM _ Sim.env Sim.drv _ _ _ _ E).
Defined.

(** * Further properties *)

(** ** The poller, further *)

Lemma polled_counts name check n t r :
  polled name check n t r ->
  length (List.filter is_describe t) = S (length (List.filter is_sleep t)) /\
  (length (List.filter is_describe t) <= n)%nat /\
  slept t = 5 * Z.of_nat (length (List.filter is_sleep t)) /\
  (length (checked t) = length (List.filter is_describe t) \/
   (S (length (checked t)) = length (List.filter is_describe t) /\
    is_Some r)).
Proof.
  induction 1; cbn [List.filter is_describe is_sleep lookup_event checked
                    slept length].
  - split; [reflexivity|]. split; [lia|]. split; [reflexivity|].
    right. split; [reflexivity | eauto].
  - split; [reflexivity|]. split; [lia|]. split; [reflexivity|].
    left. reflexivity.
  - split; [reflexivity|]. split; [lia|]. split; [reflexivity|].
    left. reflexivity.
  - destruct IHpolled as (H1 & H2 & H3 & H4). rewrite H1, H3.
    split; [reflexivity|]. split; [lia|]. split; [lia|].
    destruct H4 as [H4|[H4 Hr]]; [left | right; split; [|exact Hr]];
      rewrite H1 in H4; lia.
Qed.

Lemma polled_filter_nil name check (f : event -> bool) n t r :
  f (lookup_event name) = false ->
  (forall v, f (ECheck v) = false) ->
  f (ESleep 5) = false ->
  polled name check n t r -> List.filter f t = [].
Proof.
  intros Hl Hc Hs H. apply polled_events in H.
  induction H as [|e t He _ IH]; [reflexivity|].
  cbn. rewrite IH.
  destruct He as [->|[He| ->]]; [rewrite Hl| |rewrite Hs]; try reflexivity.
  destruct e; try discriminate. rewrite Hc. reflexivity.
Qed.

(** X1: every run of the poller is a sequence of lookups of the volume
    by name, evaluations of the condition and sleeps of five seconds,
    and nothing else.  There is one more lookup than there are sleeps,
    at most twelve lookups, and at most 55 seconds slept.  The condition
    is evaluated after every lookup, except that a last lookup may have
    failed, in which case the run ends there with an error. *)
Theorem waitUntilState_budget {W : Type} (env : Env W) (name : string)
  (check : Volume -> option error) (w : W) :
  let r := waitUntilState env name check w in
  let t := trace_of r in
  let lookups := length (List.filter is_describe t) in
  Forall (fun e => e = lookup_event name \/ is_check e = true \/
                   e = ESleep 5) t /\
  lookups = S (length (List.filter is_sleep t)) /\
  (lookups <= 12)%nat /\
  slept t <= 55 /\
  (length (checked t) = lookups \/
   (S (length (checked t)) = lookups /\ is_Some (result_of r))).
Proof.
  intros r t lookups.
  pose proof (waitUntilState_polled env name check w) as H.
  cbv zeta in H. fold r in H. fold t in H.
  pose proof (polled_counts _ _ _ _ _ H) as (H1 & H2 & H3 & H4).
  split; [eapply polled_events; eauto|].
  subst lookups. repeat split; try assumption. lia.
Qed.

Lemma checkAttached_None (v : Volume) :
  checkAttached v = None ->
  exists a, Attachments v = [a] /\
            AttachState a = VolumeAttachmentStateAttached.
Proof.
  unfold checkAttached. destruct (Attachments v) as [|a [|b l]];
    try discriminate.
  destruct (String.eqb_spec (AttachState a) VolumeAttachmentStateAttached);
    [|discriminate].
  intros _. eauto.
Qed.

Lemma checkDettached_None (v : Volume) :
  checkDettached v = None -> Attachments v = [].
Proof.
  unfold checkDettached. destruct (Attachments v); [reflexivity|discriminate].
Qed.

Lemma checkAvailable_None (v : Volume) :
  checkAvailable v = None -> State v = VolumeStateAvailable.
Proof.
  unfold checkAvailable.
  destruct (String.eqb_spec (State v) VolumeStateAvailable);
    [auto|discriminate].
Qed.

(** X2: what a successful wait has seen last.  After
    [waitUntilAttached] the last fetched state has exactly one
    attachment, in state attached (whoever owns it); after
    [waitUntilDettached] it has no attachment; after
    [waitUntilAvailable] its state is available. *)
Theorem wait_success_last_state {W : Type} (env : Env W) (name : string)
  (w : W) :
  (result_of (waitUntilAttached env name w) = None ->
   exists v a,
     last (checked (trace_of (waitUntilAttached env name w))) = Some v /\
     Attachments v = [a] /\
     AttachState a = VolumeAttachmentStateAttached) /\
  (result_of (waitUntilDettached env name w) = None ->
   exists v,
     last (checked (trace_of (waitUntilDettached env name w))) = Some v /\
     Attachments v = []) /\
  (result_of (waitUntilAvailable env name w) = None ->
   exists v,
     last (checked (trace_of (waitUntilAvailable env name w))) = Some v /\
     State v = VolumeStateAvailable).
Proof.
  unfold waitUntilAttached, waitUntilDettached, waitUntilAvailable.
  repeat split; intros Hr.
  - destruct (polled_success_last _ _ _ _ _
                (waitUntilState_polled env name checkAttached w) Hr)
      as (v & Hl & Hv).
    destruct (checkAttached_None v Hv) as (a & Ha & Hs). eauto.
  - destruct (polled_success_last _ _ _ _ _
                (waitUntilState_polled env name checkDettached w) Hr)
      as (v & Hl & Hv).
    eauto using checkDettached_None.
  - destruct (polled_success_last _ _ _ _ _
                (waitUntilState_polled env name checkAvailable w) Hr)
      as (v & Hl & Hv).
    eauto using checkAvailable_None.
Qed.

(** ** Detach *)

Section Detach_facts.

Context {W : Type}.
Variable env : Env W.
Variable d : ebsVolumeDriver.

Lemma detachVolume_detached (name : string) (w : W) :
  detached name (awsInstanceId d)
    (trace_of (detachVolume env d name w))
    (result_of (detachVolume env d name w)).
Proof.
  unfold detachVolume, getEBSVolume. run_monad.
  destruct (describeVolumes env w _) as [[[|vol vs]|e] w1]; cbn;
    try apply detached_lookup_failed.
  destruct (ec2DetachVolume env w1 _ _) as [[e|] w2]; cbn;
    [apply detached_refused|].
  pose proof (waitUntilState_polled env name checkDettached w2) as Hp.
  unfold waitUntilDettached.
  destruct (waitUntilState env name checkDettached w2) as [[[e|] w3] t3];
    cbn in *; rewrite app_nil_r; apply detached_waited, Hp.
Qed.

End Detach_facts.

Lemma detached_facts name instance t r :
  detached name instance t r ->
  List.filter is_attach t = [] /\
  List.filter is_local t = [] /\
  (List.filter is_detach t = [] \/
   exists vid, List.filter is_detach t = [EDetachVolume instance vid]) /\
  (r = None ->
   (exists vid, List.filter is_detach t = [EDetachVolume instance vid]) /\
   exists v, last (checked t) = Some v /\ Attachments v = []).
Proof.
  destruct 1 as [e|vid e|vid tw r Hp]; cbn.
  - repeat split; auto; discriminate.
  - repeat split; eauto; discriminate.
  - rewrite (polled_filter_nil _ _ is_attach _ _ _ eq_refl
               (fun _ => eq_refl) eq_refl Hp).
    rewrite (polled_filter_nil _ _ is_local _ _ _ eq_refl
               (fun _ => eq_refl) eq_refl Hp).
    rewrite (polled_filter_nil _ _ is_detach _ _ _ eq_refl
               (fun _ => eq_refl) eq_refl Hp).
    repeat split; eauto.
    destruct (polled_success_last _ _ _ _ _ Hp H) as (v & Hl & Hv).
    exists v. split; [exact Hl | apply checkDettached_None, Hv].
Qed.

(** X3: [detachVolume] issues no attach request and touches nothing on
    the host; it issues at most one detach request, naming this
    instance.  When it returns nil it has issued that request and the
    last state it fetched shows no attachment.  When the lookup fails it
    returns the lookup's error after that single call; when the lookup
    succeeds the detach request comes right after it and names the id of
    the volume found. *)
Theorem detachVolume_outcome {W : Type} (env : Env W) (d : ebsVolumeDriver)
  (name : string) (w : W) :
  let r := detachVolume env d name w in
  let t := trace_of r in
  List.filter is_attach t = [] /\
  List.filter is_local t = [] /\
  (List.filter is_detach t = [] \/
   exists vid, List.filter is_detach t = [EDetachVolume (awsInstanceId d) vid])
  /\
  (result_of r = None ->
   (exists vid,
      List.filter is_detach t = [EDetachVolume (awsInstanceId d) vid]) /\
   exists v, last (checked t) = Some v /\ Attachments v = []) /\
  match result_of (getEBSVolume env name w) with
  | inr e => r = (Some e, world_of (getEBSVolume env name w),
                  [lookup_event name])
  | inl vol =>
      exists t', t = lookup_event name
                     :: EDetachVolume (awsInstanceId d) (VolumeId vol) :: t'
  end.
Proof.
  cbv zeta.
  pose proof (detached_facts name _ _ _ (detachVolume_detached env d name w))
    as (H1 & H2 & H3 & H4).
  repeat (split; [assumption|]).
  unfold detachVolume, getEBSVolume. run_monad.
  destruct (describeVolumes env w _) as [[[|vol vs]|e] w1]; cbn;
    try reflexivity.
  destruct (ec2DetachVolume env w1 _ _) as [[e|] w2]; cbn;
    [eexists; reflexivity|].
  destruct (waitUntilDettached env name w2) as [[[e|] w3] t3]; cbn;
    eexists; reflexivity.
Qed.

(** ** The device pattern *)

Lemma prefix_append (p s : string) : String.prefix p (p +:+ s) = true.
Proof.
  induction p as [|c p IH]; [destruct s; reflexivity|].
  rewrite append_cons. cbn. rewrite IH.
  destruct (ascii_dec c c); [reflexivity|congruence].
Qed.

Lemma drop_str_append (p s : string) :
  drop_str (String.length p) (p +:+ s) = s.
Proof.
  induction p as [|c p IH]; [destruct s; reflexivity|].
  rewrite append_cons. cbn. exact IH.
Qed.

(** X4: the device pattern of line 344 either finds nothing (which is
    the case [len(res) != 3]) or returns three strings: the alias
    matched, its prefix group and a letter from f to p.  Every name that
    starts with /dev/sd or /dev/xvd followed by such a letter, whatever
    comes after, is recognised with that letter: the paths
    [attachVolume] requests are the paths it later resolves. *)
Theorem FindStringSubmatch_device (s : string) :
  (FindStringSubmatch s = [] \/
   exists c, In c slots /\
     (FindStringSubmatch s = ["/dev/xvd" +:+ String c ""; "xv"; String c ""] \/
      FindStringSubmatch s = ["/dev/sd" +:+ String c ""; "s"; String c ""])) /\
  (forall c rest, In c slots ->
     FindStringSubmatch ("/dev/sd" +:+ String c rest) =
       ["/dev/sd" +:+ String c ""; "s"; String c ""] /\
     FindStringSubmatch ("/dev/xvd" +:+ String c rest) =
       ["/dev/xvd" +:+ String c ""; "xv"; String c ""]).
Proof.
  split.
  - destruct (FindStringSubmatch_shape s) as [H|(c & Hc & H)]; [auto|].
    right. exists c. split; [apply isSlotLetter_slots, Hc | exact H].
  - intros c rest Hc. apply slots_isSlotLetter in Hc.
    split.
    + change ("/dev/sd" +:+ String c rest)
        with (String "/" ("dev/sd" +:+ String c rest)).
      cbn [FindStringSubmatch]. unfold matchDeviceAt.
      change (String "/" ("dev/sd" +:+ String c rest))
        with ("/dev/sd" +:+ String c rest).
      replace (String.prefix "/dev/xvd" ("/dev/sd" +:+ String c rest))
        with false by reflexivity.
      rewrite prefix_append.
      change 7%nat with (String.length "/dev/sd").
      rewrite drop_str_append, Hc. reflexivity.
    + change ("/dev/xvd" +:+ String c rest)
        with (String "/" ("dev/xvd" +:+ String c rest)).
      cbn [FindStringSubmatch]. unfold matchDeviceAt.
      change (String "/" ("dev/xvd" +:+ String c rest))
        with ("/dev/xvd" +:+ String c rest).
      rewrite prefix_append.
      change 8%nat with (String.length "/dev/xvd").
      rewrite drop_str_append, Hc. reflexivity.
Qed.

(** ** The allocator, further *)

Section Attach_shape.

Context {W : Type}.
Variable env : Env W.
Variable d : ebsVolumeDriver.

Lemma attachVolume_scan_scanned (name : string) (vol : Volume)
  (cs : list ascii) :
  forall w,
    scanned name (awsInstanceId d) (VolumeId vol) cs
      (trace_of (attachVolume_scan env d name vol cs w))
      (result_of (attachVolume_scan env d name vol cs w)).
Proof.
  induction cs as [|c cs IH]; intros w; [apply scanned_none|].
  cbn [attachVolume_scan]. unfold os_Lstat. rewrite bind_observe.
  destruct (lstat env w ("/dev/sd" +:+ String c ""));
    [|apply scanned_taken, IH].
  rewrite bind_observe.
  destruct (lstat env w ("/dev/xvd" +:+ String c ""));
    [|apply scanned_taken, IH].
  fold (sd c). fold (xvd c). run_monad.
  destruct (ec2AttachVolume env w (sd c) (awsInstanceId d) (VolumeId vol))
    as [[aerr|] w1].
  - destruct (isAwsCode aerr "InvalidParameterValue").
    + specialize (IH w1).
      destruct (attachVolume_scan env d name vol cs w1) as [[r w2] t2].
      apply scanned_in_use, IH.
    + apply scanned_refused.
  - pose proof (waitUntilState_polled env name checkAttached w1) as Hp.
    unfold waitUntilAttached.
    destruct (waitUntilState env name checkAttached w1) as [[[werr|] w2] t2];
      cbn in Hp.
    + cbn. rewrite app_nil_r. apply scanned_not_attached, Hp.
    + destruct (IsNotExist (lstat env w2 (sd c))).
      * destruct (IsNotExist (lstat env w2 (xvd c))).
        -- pose proof (detachVolume_detached env d name w2) as Hd.
           destruct (detachVolume env d name w2) as [[rd w3] td].
           cbn in *. rewrite app_nil_r.
           eapply scanned_missing; eauto.
        -- cbn. rewrite app_nil_r. apply scanned_attached; auto.
      * cbn. rewrite app_nil_r. apply scanned_attached; auto.
Qed.

Lemma attachVolume_resolve_shape (name : string) (vol : Volume) (w : W)
  (r : string * option error) :
  result_of (attachVolume_resolve env d name vol w) = Some r ->
  r = ("", Some (errorString ("Unable to find mount device for " +:+ name)))
  \/ exists c, In c slots /\ (r = (sd c, None) \/ r = (xvd c, None)).
Proof.
  unfold attachVolume_resolve.
  destruct (Attachments vol) as [|a [|b l]]; try discriminate.
  destruct (_ && _); [|discriminate].
  destruct (FindStringSubmatch_shape (Device a)) as [->|(c & Hc & [->| ->])];
    cbn [length Nat.eqb negb at_index nth].
  - intros H. inversion H. auto.
  - unfold os_Lstat. rewrite bind_observe.
    destruct (lstat env w _).
    + rewrite bind_observe. destruct (lstat env w _); [discriminate|].
      intros H; inversion H. right. exists c.
      split; [apply isSlotLetter_slots, Hc|]. right. reflexivity.
    + intros H; inversion H. right. exists c.
      split; [apply isSlotLetter_slots, Hc|]. left. reflexivity.
  - unfold os_Lstat. rewrite bind_observe.
    destruct (lstat env w _).
    + rewrite bind_observe. destruct (lstat env w _); [discriminate|].
      intros H; inversion H. right. exists c.
      split; [apply isSlotLetter_slots, Hc|]. right. reflexivity.
    + intros H; inversion H. right. exists c.
      split; [apply isSlotLetter_slots, Hc|]. left. reflexivity.
Qed.

Lemma attachVolume_attached (name : string) (w : W) :
  match result_of (getEBSVolume env name w) with
  | inr e =>
      attachVolume env d name w =
      (("", Some e), world_of (getEBSVolume env name w), [lookup_event name])
  | inl vol =>
      attached name (awsInstanceId d) (VolumeId vol)
        (trace_of (attachVolume env d name w))
        (result_of (attachVolume env d name w))
  end.
Proof.
  unfold attachVolume, bind.
  pose proof (getEBSVolume_trace env name w) as Ht1.
  destruct (getEBSVolume env name w) as [[[vol|e] w1] t1]; cbn in Ht1;
    subst t1; [|reflexivity].
  cbn [result_of fst].
  destruct (attachVolume_resolve_pure env d name vol w1) as [Hw Ht].
  pose proof (attachVolume_resolve_shape name vol w1) as Hs.
  destruct (attachVolume_resolve env d name vol w1) as [[[r|] w1'] t1'];
    cbn in Hw, Ht, Hs; subst.
  - destruct (Hs r eq_refl) as [->|(c & Hc & Hr)].
    + apply attached_no_device.
    + destruct Hr as [-> | ->].
      * apply (attached_already _ _ _ c); [exact Hc | left; reflexivity].
      * apply (attached_already _ _ _ c); [exact Hc | right; reflexivity].
  - pose proof (waitUntilState_polled env name checkAvailable w1) as Hp.
    unfold waitUntilAvailable.
    destruct (waitUntilState env name checkAvailable w1) as [[[e|] w2] t2];
      cbn in Hp.
    + cbn. rewrite app_nil_r. apply attached_unavailable, Hp.
    + pose proof (attachVolume_scan_scanned name vol slots w2) as Hsc.
      destruct (attachVolume_scan env d name vol slots w2) as [[r w3] t3].
      cbn in *. eapply attached_scanned; eauto.
Qed.

End Attach_shape.

Section Scanned_facts.

Variables name instance vid : string.

Lemma scanned_result cs t r :
  scanned name instance vid cs t r ->
  (exists e, r = ("", Some e)) \/
  exists c, In c cs /\ (r = (sd c, None) \/ r = (xvd c, None)).
Proof.
  induction 1; eauto.
  - destruct IHscanned as [?|(x & Hx & Hr)]; [auto|].
    right. exists x. split; [right; exact Hx | exact Hr].
  - destruct IHscanned as [?|(x & Hx & Hr)]; [auto|].
    right. exists x. split; [right; exact Hx | exact Hr].
  - right. exists c. split; [left; reflexivity|].
    destruct H0 as [-> | ->]; auto.
Qed.

Lemma scanned_requests cs t r :
  scanned name instance vid cs t r ->
  exists cs',
    sublist cs' cs /\
    List.filter is_attach t = requests instance vid cs' /\
    (forall dev, r = (dev, None) ->
       exists c, last cs' = Some c /\ (dev = sd c \/ dev = xvd c)).
Proof.
  induction 1.
  - exists []. split; [constructor|]. split; [reflexivity|]. discriminate.
  - destruct IHscanned as (cs' & Hs & Hf & Hl).
    exists cs'. split; [apply sublist_cons, Hs|]. auto.
  - destruct IHscanned as (cs' & Hs & Hf & Hl).
    exists (c :: cs'). split; [apply sublist_skip, Hs|].
    split; [cbn; rewrite Hf; reflexivity|].
    intros dev Hr. destruct (Hl dev Hr) as (x & Hx & Hd).
    exists x. split; [|exact Hd].
    destruct cs'; [discriminate | exact Hx].
  - exists [c]. split; [apply sublist_skip, sublist_nil_l|].
    split; [reflexivity|]. discriminate.
  - exists [c]. split; [apply sublist_skip, sublist_nil_l|].
    split; [|discriminate]. cbn.
    rewrite (polled_filter_nil _ _ is_attach _ _ _ eq_refl
               (fun _ => eq_refl) eq_refl H). reflexivity.
  - exists [c]. split; [apply sublist_skip, sublist_nil_l|].
    split.
    + cbn. rewrite (polled_filter_nil _ _ is_attach _ _ _ eq_refl
                      (fun _ => eq_refl) eq_refl H). reflexivity.
    + intros dev' Hr. inversion Hr; subst. exists c. auto.
  - exists [c]. split; [apply sublist_skip, sublist_nil_l|].
    split; [|discriminate]. cbn. rewrite List.filter_app.
    rewrite (polled_filter_nil _ _ is_attach _ _ _ eq_refl
               (fun _ => eq_refl) eq_refl H).
    destruct (detached_facts _ _ _ _ H0) as (-> & _). reflexivity.
Qed.

Lemma scanned_effects cs t r :
  scanned name instance vid cs t r ->
  List.filter is_local t = [] /\
  (List.filter is_detach t = [] \/
   exists v c, List.filter is_detach t = [EDetachVolume instance v] /\
               In c cs /\ r = ("", Some (deviceMissing c))).
Proof.
  induction 1; cbn.
  - auto.
  - destruct IHscanned as (Hl & [Hd|(v & x & Hd & Hx & Hr)]); split; auto.
    right. exists v, x. auto.
  - destruct IHscanned as (Hl & [Hd|(v & x & Hd & Hx & Hr)]); split; auto.
    right. exists v, x. auto.
  - auto.
  - rewrite (polled_filter_nil _ _ is_local _ _ _ eq_refl
               (fun _ => eq_refl) eq_refl H).
    rewrite (polled_filter_nil _ _ is_detach _ _ _ eq_refl
               (fun _ => eq_refl) eq_refl H). auto.
  - rewrite (polled_filter_nil _ _ is_local _ _ _ eq_refl
               (fun _ => eq_refl) eq_refl H).
    rewrite (polled_filter_nil _ _ is_detach _ _ _ eq_refl
               (fun _ => eq_refl) eq_refl H). auto.
  - rewrite !List.filter_app.
    rewrite (polled_filter_nil _ _ is_local _ _ _ eq_refl
               (fun _ => eq_refl) eq_refl H).
    rewrite (polled_filter_nil _ _ is_detach _ _ _ eq_refl
               (fun _ => eq_refl) eq_refl H).
    destruct (detached_facts _ _ _ _ H0) as (_ & -> & [-> |[v ->]] & _);
      split; auto.
    right. exists v, c. split; [reflexivity|]. split; [left|]; reflexivity.
Qed.

End Scanned_facts.

Section Attached_facts.

Variables name instance vid : string.

Lemma attached_result t r :
  attached name instance vid t r ->
  (exists e, r = ("", Some e)) \/
  exists c, In c slots /\ (r = (sd c, None) \/ r = (xvd c, None)).
Proof.
  destruct 1 as [|c dev Hc Hd|tw e Hp|tw ts r' Hp Hs].
  - left. eauto.
  - right. exists c. split; [exact Hc|]. destruct Hd as [-> | ->]; auto.
  - left. eauto.
  - eapply scanned_result, Hs.
Qed.

Lemma attached_requests t r :
  attached name instance vid t r ->
  exists cs',
    sublist cs' slots /\
    List.filter is_attach t = requests instance vid cs' /\
    (forall dev, r = (dev, None) ->
       cs' = [] \/
       exists c, last cs' = Some c /\ (dev = sd c \/ dev = xvd c)).
Proof.
  destruct 1 as [|c dev Hc Hd|tw e Hp|tw ts r' Hp Hs].
  - exists []. split; [apply sublist_nil_l|]. auto.
  - exists []. split; [apply sublist_nil_l|]. auto.
  - exists []. split; [apply sublist_nil_l|]. split; [|auto]. cbn.
    apply (polled_filter_nil _ _ is_attach _ _ _ eq_refl
             (fun _ => eq_refl) eq_refl Hp).
  - destruct (scanned_requests _ _ _ _ _ _ Hs) as (cs' & Hsub & Hf & Hl).
    exists cs'. split; [exact Hsub|]. split.
    + cbn. rewrite List.filter_app, Hf.
      rewrite (polled_filter_nil _ _ is_attach _ _ _ eq_refl
                 (fun _ => eq_refl) eq_refl Hp). reflexivity.
    + intros dev Hr. right. apply Hl, Hr.
Qed.

Lemma attached_effects t r :
  attached name instance vid t r ->
  List.filter is_local t = [] /\
  (List.filter is_detach t = [] \/
   exists v c, List.filter is_detach t = [EDetachVolume instance v] /\
               In c slots /\ r = ("", Some (deviceMissing c))).
Proof.
  destruct 1 as [|c dev Hc Hd|tw e Hp|tw ts r' Hp Hs]; cbn; auto.
  - rewrite (polled_filter_nil _ _ is_local _ _ _ eq_refl
               (fun _ => eq_refl) eq_refl Hp).
    rewrite (polled_filter_nil _ _ is_detach _ _ _ eq_refl
               (fun _ => eq_refl) eq_refl Hp). auto.
  - rewrite !List.filter_app.
    rewrite (polled_filter_nil _ _ is_local _ _ _ eq_refl
               (fun _ => eq_refl) eq_refl Hp).
    rewrite (polled_filter_nil _ _ is_detach _ _ _ eq_refl
               (fun _ => eq_refl) eq_refl Hp).
    apply (scanned_effects _ _ _ _ _ _ Hs).
Qed.

End Attached_facts.

(** X5: [attachVolume] returns either the empty string with an error,
    or, with no error, one of the two aliases /dev/sd<c>, /dev/xvd<c> of
    a letter c from f to p. *)
Theorem attachVolume_result_shape {W : Type} (env : Env W)
  (d : ebsVolumeDriver) (name : string) (w : W) :
  let r := result_of (attachVolume env d name w) in
  (exists e, r = ("", Some e)) \/
  exists c, In c slots /\
    (r = ("/dev/sd" +:+ String c "", None) \/
     r = ("/dev/xvd" +:+ String c "", None)).
Proof.
  cbv zeta. pose proof (attachVolume_attached env d name w) as H.
  destruct (result_of (getEBSVolume env name w)) as [vol|e].
  - eapply attached_result, H.
  - rewrite H. left. eauto.
Qed.

(** X6: the attach requests of one run of [attachVolume] name the
    primary paths of a subsequence of the letters f to p, in that order
    (so each slot at most once, eleven requests at most), all for this
    instance and for the id of the volume the first lookup found; none
    is issued when that lookup fails.  A device returned after at least
    one request is an alias of the slot requested last. *)
Theorem attachVolume_requests {W : Type} (env : Env W)
  (d : ebsVolumeDriver) (name : string) (w : W) :
  let r := attachVolume env d name w in
  exists cs vid,
    sublist cs slots /\
    List.filter is_attach (trace_of r) = requests (awsInstanceId d) vid cs /\
    (found_id (result_of (getEBSVolume env name w)) = None -> cs = []) /\
    (forall v, found_id (result_of (getEBSVolume env name w)) = Some v ->
               vid = v) /\
    (forall dev, result_of r = (dev, None) ->
       cs = [] \/
       exists c, last cs = Some c /\
                 (dev = "/dev/sd" +:+ String c "" \/
                  dev = "/dev/xvd" +:+ String c "")).
Proof.
  cbv zeta. pose proof (attachVolume_attached env d name w) as H.
  destruct (result_of (getEBSVolume env name w)) as [vol|e]; cbn [found_id].
  - destruct (attached_requests _ _ _ _ _ H) as (cs & Hs & Hf & Hl).
    exists cs, (VolumeId vol). repeat split; auto; try discriminate.
    intros v Hv. inversion Hv. reflexivity.
  - exists [], "". rewrite H. cbn.
    repeat split; auto; try discriminate. apply sublist_nil_l.
Qed.

(** X7: [attachVolume] creates or removes no directory and runs no
    command.  It issues at most one detach request, for this instance,
    and only in a run that ends with the error "Device /dev/sd<c> is
    missing after attach.": never in a run that returns a device, nor
    on any other failure. *)
Theorem attachVolume_effects {W : Type} (env : Env W)
  (d : ebsVolumeDriver) (name : string) (w : W) :
  let r := attachVolume env d name w in
  List.filter is_local (trace_of r) = [] /\
  (List.filter is_detach (trace_of r) = [] \/
   exists vid c,
     List.filter is_detach (trace_of r) =
       [EDetachVolume (awsInstanceId d) vid] /\
     In c slots /\
     result_of r =
       ("", Some (errorString ("Device /dev/sd" +:+ String c "" +:+
                               " is missing after attach.")))).
Proof.
  cbv zeta. pose proof (attachVolume_attached env d name w) as H.
  destruct (result_of (getEBSVolume env name w)) as [vol|e].
  - apply (attached_effects _ _ _ _ _ H).
  - rewrite H. cbn. auto.
Qed.

(** X8: when the provider answers every attach request with
    InvalidParameterValue, and such a rejected request leaves the device
    nodes of the host as they were, the scan issues exactly one attach
    request for each slot neither of whose aliases exists, in the order
    f to p, and nothing else (so it never waits), and ends with the
    error "No devices available for attach: /dev/sd[f-p] taken.". *)
Theorem attachVolume_scan_all_in_use {W : Type} (env : Env W)
  (d : ebsVolumeDriver) (name : string) (vol : Volume) (w : W) :
  (forall w' dev i v,
     exists e, fst (ec2AttachVolume env w' dev i v) = Some e /\
               isAwsCode e "InvalidParameterValue" = true) ->
  (forall w' dev i v p,
     lstat env (snd (ec2AttachVolume env w' dev i v)) p = lstat env w' p) ->
  let free := List.filter (fun c => negb (slotTaken env w c)) slots in
  result_of (attachVolume_scan env d name vol slots w) =
    ("", Some (errorString
                 "No devices available for attach: /dev/sd[f-p] taken.")) /\
  trace_of (attachVolume_scan env d name vol slots w) =
    requests (awsInstanceId d) (VolumeId vol) free.
Proof.
  intros Hrej Hstable. cbv zeta. generalize slots as cs. intros cs.
  revert w. induction cs as [|c cs IH]; intros w; [split; reflexivity|].
  cbn [attachVolume_scan List.filter]. unfold slotTaken, path_exists, sd, xvd.
  unfold os_Lstat. rewrite !bind_observe.
  destruct (lstat env w ("/dev/sd" +:+ String c "")) eqn:Hsd;
    [|exact (IH w)].
  rewrite !bind_observe.
  destruct (lstat env w ("/dev/xvd" +:+ String c "")) eqn:Hxvd;
    [|exact (IH w)].
  cbn [orb negb]. run_monad.
  destruct (Hrej w ("/dev/sd" +:+ String c "") (awsInstanceId d)
              (VolumeId vol)) as (e' & He & Hcode).
  pose proof (Hstable w ("/dev/sd" +:+ String c "") (awsInstanceId d)
                (VolumeId vol)) as Hst.
  destruct (ec2AttachVolume env w ("/dev/sd" +:+ String c "")
              (awsInstanceId d) (VolumeId vol)) as [aerr w1].
  cbn in He, Hst. subst aerr. rewrite Hcode.
  destruct (IH w1) as [Hr Ht].
  assert (Hf : List.filter (fun c0 => negb (slotTaken env w1 c0)) cs =
               List.filter (fun c0 => negb (slotTaken env w c0)) cs).
  { apply List.filter_ext. intros x. unfold slotTaken, path_exists.
    rewrite !Hst. reflexivity. }
  unfold slotTaken, path_exists, sd, xvd in Hf, Ht.
  destruct (attachVolume_scan env d name vol cs w1) as [[r w2] t2].
  cbn in Hr, Ht |- *. subst r t2. rewrite Hf.
  split; reflexivity.
Qed.

(** ** Paths *)

Lemma contains_none_index (s : string) :
  contains_char "/"%char s = false -> index_slash s = None.
Proof.
  induction s as [|c s IH]; [reflexivity|]. cbn.
  destruct (Ascii.eqb c "/"); [discriminate|]. cbn.
  intros H. rewrite IH by exact H. reflexivity.
Qed.

Lemma parsePath_volume_fixed (p : string) :
  parsePath (fst (parsePath p)) = (fst (parsePath p), "").
Proof.
  unfold parsePath at 1.
  rewrite contains_none_index by apply parsePath_volume_no_slash.
  reflexivity.
Qed.

(** X9: only the volume part of a path matters to what the operations
    do.  [Unmount] and [Remove] of a path are those of its volume;
    [Mount] of a path issues the calls, leaves the world and fails or
    succeeds as [Mount] of its volume does, and on success returns that
    mountpoint followed by the rest of the path. *)
Theorem subpath_only_in_result {W : Type} (env : Env W) (d : ebsVolumeDriver)
  (path : string) (w : W) :
  let volume := fst (parsePath path) in
  Unmount env d path w = Unmount env d volume w /\
  Remove env d path w = Remove env d volume w /\
  world_of (Mount env d path w) = world_of (Mount env d volume w) /\
  trace_of (Mount env d path w) = trace_of (Mount env d volume w) /\
  snd (result_of (Mount env d path w)) =
  snd (result_of (Mount env d volume w)) /\
  (snd (result_of (Mount env d path w)) = None ->
   fst (result_of (Mount env d path w)) =
   fst (result_of (Mount env d volume w)) +:+ snd (parsePath path)).
Proof.
  intros volume. subst volume.
  unfold Unmount, Remove, Mount. rewrite parsePath_volume_fixed.
  destruct (parsePath path) as [volume folder]. cbn [fst snd].
  repeat (split; [reflexivity|]). unfold bind.
  destruct (doMount env d volume w) as [[[mnt [e|]] w1] t1]; cbn.
  - repeat split. discriminate.
  - repeat split. intros _. rewrite append_empty_r. reflexivity.
Qed.

(** ** Get and List *)

Section Registry_facts.

Context {W : Type}.
Variable env : Env W.

Lemma List_loop_entries (vs : list Volume) (w : W) :
  world_of (List_loop env vs w) = w /\
  trace_of (List_loop env vs w) = [] /\
  match result_of (List_loop env vs w) with
  | None => Exists (fun v => Tags v = []) vs
  | Some l =>
      Forall (fun v => Tags v <> []) vs /\
      length l = length vs /\
      forall (i : nat) v, vs !! i = Some v ->
        exists m : gmap string string,
          l !! i = Some m /\
          m !! "Name" = Value <$> head (Tags v) /\
          m !! "AwsVolumeId" = Some (VolumeId v)
  end.
Proof.
  induction vs as [|v vs IH].
  - cbn. repeat split; [constructor|]. intros i v Hi. destruct i; discriminate.
  - cbn [List_loop]. destruct (Tags v) as [|tag0 tags] eqn:Htags.
    + cbn. repeat split. left. exact Htags.
    + unfold bind, ret. rewrite (Path_checks env (Value tag0) w).
      destruct IH as (Hw & Ht & Hr).
      destruct (stat env w _) as [[[|]]|];
        destruct (List_loop env vs w) as [[[l|] w1] t1];
        cbn in Hw, Ht, Hr; subst; cbn.
      all: try (repeat split; right; exact Hr).
      all: destruct Hr as (Hall & Hlen & Hent).
      all: split; [reflexivity|]; split; [reflexivity|].
      all: split; [constructor; [congruence | exact Hall]|].
      all: split; [lia|].
      all: intros [|i] v' Hi; cbn in Hi; [|apply Hent, Hi].
      all: inversion Hi; subst; rewrite Htags.
      all: eexists; split; [reflexivity|]; split; by simplify_map_eq.
Qed.

End Registry_facts.

(** X10: [Get] issues the lookup and nothing else.  When the lookup
    fails it returns that error with no map.  Otherwise it returns no
    error, whatever [Path] answered, and a map that binds Name to the
    name asked for and AwsVolumeId to the id of the first volume found;
    the only other key the map can have is Mountpoint. *)
Theorem Get_map {W : Type} (env : Env W) (name : string) (w : W) :
  let r := Get env name w in
  match getEBSVolume env name w with
  | (inr e, w1, t1) => r = ((∅, Some e), w1, t1)
  | (inl vol, w1, t1) =>
      world_of r = w1 /\ trace_of r = t1 /\ snd (result_of r) = None /\
      fst (result_of r) !! "Name" = Some name /\
      fst (result_of r) !! "AwsVolumeId" = Some (VolumeId vol) /\
      forall k, k <> "Name" -> k <> "AwsVolumeId" -> k <> "Mountpoint" ->
                fst (result_of r) !! k = None
  end.
Proof.
  cbv zeta. unfold Get, bind.
  destruct (getEBSVolume env name w) as [[[vol|e] w1] t1];
    [|cbn; rewrite app_nil_r; reflexivity].
  rewrite (Path_checks env name w1).
  destruct (stat env w1 _) as [[[|]]|]; cbn; rewrite ?app_nil_r;
    repeat split; try (by simplify_map_eq);
    intros k H1 H2 H3; by simplify_map_eq.
Qed.

(** X11: [List] issues one provider call, the description of the
    volumes that have a tag key Name.  A provider error is returned with
    no entry.  Otherwise the result has one entry per volume described,
    in order, binding AwsVolumeId to its id and Name to the value of its
    first tag, whatever the key of that tag; a failure of [Path] never
    shows.  The run panics ([Tags[0]]) exactly when a described volume
    carries no tag. *)
Theorem List_entries {W : Type} (env : Env W) (w : W) :
  let filters := [ {| Name := "tag-key"; Values := ["Name"] |} ] in
  match describeVolumes env w filters with
  | (inr e, w1) =>
      List env w = (Some ([], Some e), w1, [EDescribeVolumes filters])
  | (inl vs, w1) =>
      world_of (List env w) = w1 /\
      trace_of (List env w) = [EDescribeVolumes filters] /\
      match result_of (List env w) with
      | None => Exists (fun v => Tags v = []) vs
      | Some (l, err) =>
          err = None /\
          Forall (fun v => Tags v <> []) vs /\
          length l = length vs /\
          forall (i : nat) v, vs !! i = Some v ->
            exists m : gmap string string,
              l !! i = Some m /\
              m !! "Name" = Value <$> head (Tags v) /\
              m !! "AwsVolumeId" = Some (VolumeId v)
      end
  end.
Proof.
  cbv zeta. unfold List. run_monad.
  destruct (describeVolumes env w _) as [[vs|e] w1]; [|reflexivity].
  destruct (List_loop_entries env vs w1) as (Hw & Ht & Hr).
  destruct (List_loop env vs w1) as [[[l|] w2] t2]; cbn in *; subst;
    repeat split; try apply Hr; auto.
Qed.

(** ** The size option *)

Lemma isDigit_val (c : ascii) : isDigit c = true -> 0 <= digitVal c <= 9.
Proof. unfold isDigit, digitVal. cbv zeta. lia. Qed.

Lemma isDigit_not_sign (c : ascii) :
  isDigit c = true -> Ascii.eqb c "+" = false /\ Ascii.eqb c "-" = false.
Proof.
  intros H. split.
  - destruct (Ascii.eqb_spec c "+"); [subst; discriminate | reflexivity].
  - destruct (Ascii.eqb_spec c "-"); [subst; discriminate | reflexivity].
Qed.

Lemma ParseUint_loop_digits (s : string) :
  forall n,
    all_digits s = true -> 0 <= n ->
    (n + 1) * 10 ^ Z.of_nat (String.length s) <= 10 ^ 18 ->
    ParseUint_loop s n = (decimal s n, None) /\
    0 <= decimal s n < 10 ^ 18.
Proof.
  induction s as [|c s IH]; intros n Hd Hn Hb.
  - cbn in *. split; [reflexivity | lia].
  - cbn [all_digits] in Hd. apply andb_prop in Hd as [Hc Hd].
    pose proof (isDigit_val c Hc) as Hv.
    cbn [ParseUint_loop decimal String.length]. rewrite Hc. cbv zeta.
    assert (Hp : 1 <= 10 ^ Z.of_nat (String.length s))
      by (pose proof (Z.pow_pos_nonneg 10 (Z.of_nat (String.length s)));
          lia).
    cbn [String.length] in Hb.
    rewrite Nat2Z.inj_succ, Z.pow_succ_r in Hb by lia.
    assert (Hn1 : (n + 1) * 10 <= 10 ^ 18) by nia.
    change (10 ^ 18) with 1000000000000000000 in *.
    change (maxUint64 / 10 + 1) with 1844674407370955162.
    change maxUint64 with 18446744073709551615.
    change (2 ^ 64) with 18446744073709551616.
    destruct (Z.geb_spec n 1844674407370955162); [lia|].
    rewrite (Z.mod_small (n * 10)) by lia.
    rewrite (Z.mod_small (n * 10 + digitVal c)) by lia.
    destruct (Z.ltb_spec (n * 10 + digitVal c) (n * 10)); [lia|].
    destruct (Z.gtb_spec (n * 10 + digitVal c) 18446744073709551615);
      [lia|].
    cbn [orb]. replace (10 * n + digitVal c) with (n * 10 + digitVal c)
      by lia.
    apply IH; [exact Hd | lia | nia].
Qed.

(** X12: a size option made of one to eighteen decimal digits is
    parsed without error to the number it denotes, and that number is
    the size of the creation request [Create] issues first. *)
Theorem Create_size_decimal {W : Type} (env : Env W) (d : ebsVolumeDriver)
  (name s : string) (options : gmap string string) (w : W) :
  options !! "size" = Some s ->
  s <> "" -> all_digits s = true -> (String.length s <= 18)%nat ->
  ParseInt s = (decimal s 0, None) /\
  0 <= decimal s 0 < 10 ^ 18 /\
  exists t,
    trace_of (Create env d name options w) =
    ECreateVolume (awsAvailabilityZone d) (decimal s 0) :: t.
Proof.
  intros Hopt Hne Hd Hlen.
  assert (Hb : (0 + 1) * 10 ^ Z.of_nat (String.length s) <= 10 ^ 18).
  { rewrite Z.mul_1_l. apply Z.pow_le_mono_r; lia. }
  destruct (ParseUint_loop_digits s 0 Hd ltac:(lia) Hb) as [Hl Hr].
  assert (Hp : ParseInt s = (decimal s 0, None)).
  { destruct s as [|c0 rest]; [congruence|].
    cbn [all_digits] in Hd. apply andb_prop in Hd as [Hc _].
    destruct (isDigit_not_sign c0 Hc) as [Hplus Hminus].
    unfold ParseInt. rewrite Hplus, Hminus. unfold ParseUint. rewrite Hl.
    cbn [negb andb].
    change (10 ^ 18) with 1000000000000000000 in Hr.
    change (2 ^ 63) with 9223372036854775808.
    destruct (Z.geb_spec (decimal (String c0 rest) 0) 9223372036854775808);
      [lia | reflexivity]. }
  split; [exact Hp|]. split; [exact Hr|].
  destruct (Create_first_call env d name options w) as [t Ht].
  exists t. rewrite Ht, Hopt. change (default "" (Some s)) with s.
  rewrite Hp. reflexivity.
Qed.

(** ** What Mount and Create do on the host *)

Lemma filter_nil_Forall (f : event -> bool) (P : event -> Prop)
  (t : list event) :
  List.filter f t = [] -> Forall (fun e => f e = true -> P e) t.
Proof.
  induction t as [|e t IH]; [constructor|]. cbn.
  destruct (f e) eqn:He; [discriminate|].
  intros H. constructor; [congruence | apply IH, H].
Qed.

Section Host_facts.

Context {W : Type}.
Variable env : Env W.
Variable d : ebsVolumeDriver.

Lemma attachVolume_facts (name : string) (w : W) :
  ((exists e, result_of (attachVolume env d name w) = ("", Some e)) \/
   exists c, In c slots /\
     (result_of (attachVolume env d name w) = (sd c, None) \/
      result_of (attachVolume env d name w) = (xvd c, None))) /\
  List.filter is_local (trace_of (attachVolume env d name w)) = [].
Proof.
  pose proof (attachVolume_attached env d name w) as H.
  destruct (result_of (getEBSVolume env name w)) as [vol|e].
  - split; [eapply attached_result, H | eapply attached_effects, H].
  - rewrite H. split; [left; eauto | reflexivity].
Qed.

Lemma detachVolume_no_local (name : string) (w : W) :
  List.filter is_local (trace_of (detachVolume env d name w)) = [].
Proof.
  eapply detached_facts, detachVolume_detached.
Qed.

End Host_facts.

(** X13: what [Mount] does on the host.  Its first call creates the
    mount directory of the volume; it never removes a directory; the
    only commands it runs are mountpoint on that directory and mount of
    an alias /dev/sd<c> or /dev/xvd<c>, c from f to p, on that
    directory.  When it returns an error the mountpoint returned is the
    empty string. *)
Theorem Mount_effects {W : Type} (env : Env W) (d : ebsVolumeDriver)
  (path : string) (w : W) :
  let mnt := "/mnt/blocker/" +:+ fst (parsePath path) in
  let r := Mount env d path w in
  head (trace_of r) = Some (EMkdirAll mnt) /\
  Forall (fun e => is_local e = true ->
            e = EMkdirAll mnt \/
            e = EExec "mountpoint" ["-q"; mnt] \/
            exists c, In c slots /\
              (e = EExec "mount" ["/dev/sd" +:+ String c ""; mnt] \/
               e = EExec "mount" ["/dev/xvd" +:+ String c ""; mnt]))
    (trace_of r) /\
  (forall e, snd (result_of r) = Some e -> fst (result_of r) = "").
Proof.
  intros mnt r. subst mnt r. unfold Mount, doMount.
  destruct (parsePath path) as [volume folder]. cbn [fst].
  set (mnt := "/mnt/blocker/" +:+ volume).
  match goal with
  | |- _ /\ Forall (fun e => _ -> @?Q e) _ /\ _ => set (P := Q)
  end.
  assert (Hmk : is_local (EMkdirAll mnt) = true -> P (EMkdirAll mnt))
    by (intros _; left; reflexivity).
  assert (Hmp : is_local (EExec "mountpoint" ["-q"; mnt]) = true ->
                P (EExec "mountpoint" ["-q"; mnt]))
    by (intros _; right; left; reflexivity).
  run_monad.
  destruct (mkdirAll env w mnt) as [[e|] w1]; cbn;
    [repeat split; auto|].
  destruct (stat env w1 mnt) as [[[|]]|e]; cbn;
    try (repeat split; auto; fail).
  destruct (exec env w1 "mountpoint" _) as [[out [perr|]] w2]; cbn;
    [|repeat split; auto; discriminate].
  destruct (attachVolume_facts env d volume w2) as [Hres Hloc].
  apply (filter_nil_Forall _ P) in Hloc.
  destruct (attachVolume env d volume w2) as [[[dev [e|]] w3] t3];
    cbn in Hres, Hloc |- *.
  { rewrite !app_nil_r. repeat split; auto. }
  destruct Hres as [[e He]|(c & Hc & Hdev)]; [discriminate|].
  assert (Hmount : is_local (EExec "mount" [dev; mnt]) = true ->
                   P (EExec "mount" [dev; mnt])).
  { intros _. right. right. exists c. split; [exact Hc|].
    destruct Hdev as [Hdev|Hdev]; inversion Hdev; auto. }
  pose proof (detachVolume_no_local env d volume) as Hdl.
  destruct (exec env w3 "mount" _) as [[out' [merr|]] w4]; cbn.
  - specialize (Hdl w4). apply (filter_nil_Forall _ P) in Hdl.
    destruct (detachVolume env d volume w4) as [[rd w5] td]; cbn in *.
    rewrite !app_nil_r. repeat split; auto.
    constructor; [exact Hmk|]. constructor; [exact Hmp|].
    apply Forall_app. split; [exact Hloc|].
    constructor; [exact Hmount | exact Hdl].
  - rewrite !app_nil_r. repeat split; try discriminate.
    constructor; [exact Hmk|]. constructor; [exact Hmp|].
    apply Forall_app. split; [exact Hloc|].
    constructor; [exact Hmount | constructor].
Qed.

(** X14: what [Create] does on the host: nothing, or exactly one
    command, mkfs -t ext4 on an alias /dev/sd<c> or /dev/xvd<c> with c
    from f to p.  It never formats any other path and never creates or
    removes a directory. *)
Theorem Create_formats_slot_device {W : Type} (env : Env W)
  (d : ebsVolumeDriver) (name : string) (options : gmap string string)
  (w : W) :
  let t := trace_of (Create env d name options w) in
  List.filter is_local t = [] \/
  exists c, In c slots /\
    (List.filter is_local t =
       [EExec "mkfs" ["-t"; "ext4"; "/dev/sd" +:+ String c ""]] \/
     List.filter is_local t =
       [EExec "mkfs" ["-t"; "ext4"; "/dev/xvd" +:+ String c ""]]).
Proof.
  cbv zeta. unfold Create. run_monad.
  destruct (createVolume env w _ _) as [[vol|e] w1]; cbn; [|auto].
  destruct (createTags env w1 _ _) as [terr w2]; cbn.
  destruct (attachVolume_facts env d name w2) as [Hres Hloc].
  destruct (attachVolume env d name w2) as [[[dev [e|]] w3] t3];
    cbn in Hres, Hloc |- *.
  { left. rewrite !app_nil_r. exact Hloc. }
  destruct Hres as [[e He]|(c & Hc & Hdev)]; [discriminate|].
  right. exists c. split; [exact Hc|].
  assert (Hd : forall w', List.filter is_local
            (trace_of (detachVolume env d name w')) = [])
    by (intros; apply detachVolume_no_local).
  destruct (exec env w3 "mkfs" _) as [[out [ferr|]] w4]; cbn;
    specialize (Hd w4);
    destruct (detachVolume env d name w4) as [[rd w5] td]; cbn in *;
    rewrite ?app_nil_r, !List.filter_app, Hloc; cbn; rewrite Hd;
    destruct Hdev as [Hdev|Hdev]; inversion Hdev; auto.
Qed.

Lemma attachVolume_success_no_detach {W : Type} (env : Env W)
  (d : ebsVolumeDriver) (name dev : string) (w : W) :
  result_of (attachVolume env d name w) = (dev, None) ->
  List.filter is_detach (trace_of (attachVolume env d name w)) = [].
Proof.
  intros Hr. pose proof (attachVolume_attached env d name w) as H.
  destruct (result_of (getEBSVolume env name w)) as [vol|e].
  - destruct (attached_effects _ _ _ _ _ H) as (_ & [Hd|(v & c & _ & _ & He)]);
      [exact Hd | congruence].
  - rewrite H. reflexivity.
Qed.

(** X15: a [Mount] that succeeds has issued no detach request. *)
Theorem Mount_success_no_detach {W : Type} (env : Env W)
  (d : ebsVolumeDriver) (path : string) (w : W) :
  snd (result_of (Mount env d path w)) = None ->
  List.filter is_detach (trace_of (Mount env d path w)) = [].
Proof.
  unfold Mount, doMount. destruct (parsePath path) as [volume folder].
  set (mnt := "/mnt/blocker/" +:+ volume). run_monad.
  destruct (mkdirAll env w mnt) as [[e|] w1]; cbn; [discriminate|].
  destruct (stat env w1 mnt) as [[[|]]|e]; cbn; try discriminate.
  destruct (exec env w1 "mountpoint" _) as [[out [perr|]] w2]; cbn;
    [|reflexivity].
  pose proof (attachVolume_success_no_detach env d volume) as Hnd.
  destruct (attachVolume env d volume w2) as [[[dev [e|]] w3] t3] eqn:Ha;
    cbn; [discriminate|].
  specialize (Hnd dev w2). rewrite Ha in Hnd. cbn in Hnd.
  destruct (exec env w3 "mount" _) as [[out' [merr|]] w4]; cbn.
  - destruct (detachVolume env d volume w4) as [[rd w5] td]; cbn.
    discriminate.
  - intros _. rewrite !app_nil_r, List.filter_app, Hnd by reflexivity.
    reflexivity.
Qed.

(** X16: [Path] and [Mount] agree: whenever [Path] finds a path
    mounted, in whatever world, it returns the mountpoint that a
    successful [Mount] of that path returns, and it issues no call and
    leaves the world as it is. *)
Theorem Path_agrees_with_Mount {W : Type} (env : Env W)
  (d : ebsVolumeDriver) (path s s' : string) (w w1 w2 : W)
  (t : list event) :
  Mount env d path w = ((s, None), w1, t) ->
  result_of (Path env path w2) = (s', None) ->
  s' = s /\ Path env path w2 = ((s, None), w2, []).
Proof.
  intros Hm Hp. apply Mount_success in Hm. subst s.
  rewrite Path_checks in *.
  destruct (stat env w2 _) as [[[|]]|]; cbn in Hp; inversion Hp.
  split; reflexivity.
Qed.

(** X17: [Create] attaches, and so formats, the volume that the lookup
    by name finds once the new volume is tagged, which need not be the
    volume it has just created: every attach request of the run names
    the id of the first volume the provider lists under that name. *)
Theorem Create_attaches_by_name {W : Type} (env : Env W)
  (d : ebsVolumeDriver) (name : string) (options : gmap string string)
  (vol found : Volume) (terr : option error) (w w1 w2 : W) :
  let size := fst (ParseInt (default "" (options !! "size"))) in
  let tags := [ {| Key := "Name"; Value := name |} ] in
  createVolume env w (awsAvailabilityZone d) size = (inl vol, w1) ->
  createTags env w1 [VolumeId vol] tags = (terr, w2) ->
  result_of (getEBSVolume env name w2) = inl found ->
  exists cs,
    sublist cs slots /\
    List.filter is_attach (trace_of (Create env d name options w)) =
    requests (awsInstanceId d) (VolumeId found) cs.
Proof.
  intros size tags Hcv Hct Hfound.
  pose proof (attachVolume_attached env d name w2) as Ha.
  rewrite Hfound in Ha.
  destruct (attached_requests _ _ _ _ _ Ha) as (cs & Hs & Hf & _).
  exists cs. split; [exact Hs|].
  unfold Create. run_monad. fold size. rewrite Hcv. cbn. fold tags.
  rewrite Hct.
  assert (Hd : forall w', List.filter is_attach
            (trace_of (detachVolume env d name w')) = []).
  { intros w'. eapply detached_facts, detachVolume_detached. }
  destruct (attachVolume env d name w2) as [[[dev [e|]] w3] t3];
    cbn in Hf |- *.
  - rewrite !app_nil_r. exact Hf.
  - destruct (exec env w3 "mkfs" _) as [[out [ferr|]] w4]; cbn;
      specialize (Hd w4);
      destruct (detachVolume env d name w4) as [[rd w5] td]; cbn in *;
      rewrite ?app_nil_r, !List.filter_app, Hf; cbn; rewrite Hd;
      apply app_nil_r.
Qed.

(** ** Concrete runs, further *)

(** X8, on the host where f and g are taken, with a provider that
    reports every device name in use. *)
Lemma attachVolume_scan_all_in_use_witness :
  let r := attachVolume_scan in_use_everywhere Sim.drv "vol1"
             (Sim.free_volume "vol-a" "vol1") slots Hosts.f_g_taken in
  List.filter (fun c => negb (slotTaken in_use_everywhere Hosts.f_g_taken c))
    slots = ["h"; "i"; "j"; "k"; "l"; "m"; "n"; "o"; "p"]%char /\
  result_of r =
    ("", Some (errorString
                 "No devices available for attach: /dev/sd[f-p] taken.")) /\
  trace_of r =
    requests "i-0abc" "vol-a"
      ["h"; "i"; "j"; "k"; "l"; "m"; "n"; "o"; "p"]%char.
Proof.
  cbv zeta. split; [vm_compute; reflexivity|].
  pose proof (attachVolume_scan_all_in_use in_use_everywhere Sim.drv "vol1"
                (Sim.free_volume "vol-a" "vol1") Hosts.f_g_taken) as H.
  cbv zeta in H. destruct H as [Hr Ht].
  - intros w' dev i v. eexists. split; reflexivity.
  - intros w' dev i v p. reflexivity.
  - split; [exact Hr|]. rewrite Ht. vm_compute. reflexivity.
Defined.

(** X12, on the size option "10". *)
Lemma Create_size_decimal_witness :
  ParseInt "10" = (10, None) /\
  head (trace_of (Create Sim.env Sim.drv "vol1" {[ "size" := "10" ]}
                    Sim.empty)) =
    Some (ECreateVolume "us-east-1a" 10).
Proof.
  destruct (Create_size_decimal Sim.env Sim.drv "vol1" "10"
              {[ "size" := "10" ]} Sim.empty)
    as (Hp & _ & t & Ht).
  - vm_compute. reflexivity.
  - discriminate.
  - reflexivity.
  - cbn. lia.
  - split; [exact Hp | rewrite Ht; reflexivity].
Defined.

(** X15, on a host where vol1 is free and h is the first free slot. *)
Lemma Mount_success_no_detach_witness :
  let r := Mount Sim.env Sim.drv "vol1" Hosts.f_g_taken in
  result_of r = ("/mnt/blocker/vol1", None) /\
  List.filter is_attach (trace_of r) =
    [EAttachVolume "/dev/sdh" "i-0abc" "vol-a"] /\
  List.filter is_detach (trace_of r) = [].
Proof.
  cbv zeta. split; [vm_compute; reflexivity|].
  split; [vm_compute; reflexivity|].
  apply Mount_success_no_detach. vm_compute. reflexivity.
Defined.

(** X16, on the world a first Mount of vol1 leaves. *)
Lemma Path_agrees_with_Mount_witness :
  let r := Mount Sim.env Sim.drv "vol1" Hosts.f_g_taken in
  Path Sim.env "vol1" (world_of r) =
  (("/mnt/blocker/vol1", None), world_of r, []).
Proof.
  cbv zeta.
  apply (Path_agrees_with_Mount Sim.env Sim.drv "vol1"
           "/mnt/blocker/vol1" "/mnt/blocker/vol1"
           Hosts.f_g_taken
           (world_of (Mount Sim.env Sim.drv "vol1" Hosts.f_g_taken))
           (world_of (Mount Sim.env Sim.drv "vol1" Hosts.f_g_taken))
           (trace_of (Mount Sim.env Sim.drv "vol1" Hosts.f_g_taken)));
    vm_compute; reflexivity.
Defined.

(** X17, on a host whose provider already has a volume named vol1: the
    volume created is vol-1, the volume attached and formatted is
    vol-a. *)
Lemma Create_attaches_by_name_witness :
  let t := trace_of (Create Sim.env Sim.drv "vol1" ∅ name_taken) in
  t !! 1%nat =
    Some (ECreateTags ["vol-1"] [ {| Key := "Name"; Value := "vol1" |} ]) /\
  List.filter is_attach t = [EAttachVolume "/dev/sdf" "i-0abc" "vol-a"] /\
  List.filter is_local t = [EExec "mkfs" ["-t"; "ext4"; "/dev/xvdf"]] /\
  exists cs,
    sublist cs slots /\
    List.filter is_attach t = requests "i-0abc" "vol-a" cs.
Proof.
  cbv zeta. repeat (split; [vm_compute; reflexivity|]).
  apply (Create_attaches_by_name Sim.env Sim.drv "vol1" ∅
           {| VolumeId := "vol-1"; Tags := []; Attachments := [];
              State := "available" |}
           (Sim.free_volume "vol-a" "vol1") None
           name_taken
           (Sim.with_volumes Sim.empty
              [Sim.free_volume "vol-a" "vol1";
               {| VolumeId := "vol-1"; Tags := []; Attachments := [];
                  State := "available" |}])
           (Sim.with_volumes Sim.empty
              [Sim.free_volume "vol-a" "vol1";
               Sim.free_volume "vol-1" "vol1"]));
    vm_compute; reflexivity.
Defined.
